(** * Dispensary scraper: extraction engine

    A shallow embedding of the extraction engine of the dispensary scraper
    ([models.py], [scrapers/data_extractors.py], [scrapers/base_scraper.py],
    [scrapers/base_scraper_sync.py], [scrapers/trulieve_scraper.py],
    [storage/csv_storage.py], [tools.py]) and the properties its
    specification states about it.

    Modelling conventions.
    - A Python [str] is a [string]; the matcher works on its list of
      characters.  Characters are 7-bit: the character classes below are
      the ASCII part of the tables [re] and [str] use.  Where a property
      holds of 7-bit texts only, its statement says so with [Str.isascii].
    - A Python [float] is the rational it denotes.  A decimal literal
      [d1...dn.f1...fk] is the fraction [d1...dnf1...fk / 10^k], so that
      [float("25.50")] is the number written [25.50] here.  Comparisons are
      those of [Q]; [round(x, 2)] rounds to hundredths, ties to even.
      Python computes on the nearest binary64 numbers, so the last digit
      of a rounded quotient can differ from the one computed here.
    - [Optional[T]] is [option T]; a call that may raise returns an
      [outcome]; code that keeps local variables across [try]/[except]
      passes its state explicitly; a call that may not return gives
      [None] when it does not. *)

From Stdlib Require Import QArith String Ascii List Lia Bool Arith.
From stdpp Require Import gmap strings list.
Import ListNotations.

Set Default Proof Using "Type".
Local Open Scope string_scope.
Local Open Scope list_scope.

(* ================================================================== *)
(** * Exceptions *)

(** An exception is represented by its message, [str(e)]. *)
Definition exn := string.

Inductive outcome (A : Type) : Type :=
| Ok (a : A)
| Raised (e : exn).
Arguments Ok {A} a.
Arguments Raised {A} e.

(* ================================================================== *)
(** * Characters and strings *)

Module Str.

Definition chars := list ascii.

Definition code (c : ascii) : nat := nat_of_ascii c.

Definition between (lo hi : nat) (c : ascii) : bool :=
  (lo <=? code c)%nat && (code c <=? hi)%nat.

Definition is_upper (c : ascii) : bool := between 65 90 c.
Definition is_lower (c : ascii) : bool := between 97 122 c.
Definition is_digit (c : ascii) : bool := between 48 57 c.
Definition non_digit (c : ascii) : bool := negb (is_digit c).

(** [\w]: letters, digits and the underscore. *)
Definition is_word (c : ascii) : bool :=
  is_upper c || is_lower c || is_digit c || (code c =? 95)%nat.

(** [\s] and [str.isspace]: tab, newline, vertical tab, form feed,
    carriage return, the four separators 0x1c..0x1f, and the space. *)
Definition is_space (c : ascii) : bool :=
  between 9 13 c || between 28 32 c.

Definition lower_char (c : ascii) : ascii :=
  if is_upper c then ascii_of_nat (code c + 32) else c.
Definition upper_char (c : ascii) : ascii :=
  if is_lower c then ascii_of_nat (code c - 32) else c.

Definition of_string : string -> chars := list_ascii_of_string.
Definition to_string : chars -> string := string_of_list_ascii.

(** [s.lower()], [s.upper()] *)
Definition lower (s : string) : string := to_string (map lower_char (of_string s)).
Definition upper (s : string) : string := to_string (map upper_char (of_string s)).

(** [s.capitalize()] *)
Definition capitalize (s : string) : string :=
  match of_string s with
  | [] => ""
  | c :: t => to_string (upper_char c :: map lower_char t)
  end.

(** Truthiness of a string: [if s]. *)
Definition nonempty (s : string) : bool :=
  match s with EmptyString => false | _ => true end.

Fixpoint starts_with (p s : chars) : bool :=
  match p, s with
  | [], _ => true
  | a :: p', b :: s' => if Ascii.eqb a b then starts_with p' s' else false
  | _ :: _, [] => false
  end.

(** Position-by-position scan for [needle]; [find_sub] returns the text
    before and after its first occurrence. *)
Fixpoint find_sub (needle s : chars) : option (chars * chars) :=
  if starts_with needle s then Some ([], skipn (length needle) s)
  else match s with
       | [] => None
       | c :: t => match find_sub needle t with
                   | Some (pre, post) => Some (c :: pre, post)
                   | None => None
                   end
       end.

(** [needle in s] *)
Definition contains (needle s : string) : bool :=
  match find_sub (of_string needle) (of_string s) with
  | Some _ => true
  | None => false
  end.

(** [s.endswith(suffix)] *)
Definition ends_with (suffix s : string) : bool :=
  starts_with (rev (of_string suffix)) (rev (of_string s)).

(** [s.split(sep, 1)] has one element when [sep] does not occur and two
    otherwise. *)
Definition split_once (sep s : chars) : chars * option chars :=
  match find_sub sep s with
  | Some (pre, post) => (pre, Some post)
  | None => (s, None)
  end.

Fixpoint drop_while (p : ascii -> bool) (s : chars) : chars :=
  match s with
  | c :: t => if p c then drop_while p t else s
  | [] => []
  end.

(** [s.strip(cs)] for a set of characters given as a predicate. *)
Definition strip_by (p : ascii -> bool) (s : chars) : chars :=
  rev (drop_while p (rev (drop_while p s))).

(** [s.strip()] *)
Definition strip (s : string) : string := to_string (strip_by is_space (of_string s)).

(** [sep.join(parts)] *)
Fixpoint join (sep : string) (parts : list string) : string :=
  match parts with
  | [] => ""
  | [p] => p
  | p :: rest => p ++ sep ++ join sep rest
  end.

(** [s.split()]: the maximal runs of non-space characters. *)
Fixpoint words_aux (cur : chars) (s : chars) : list chars :=
  match s with
  | [] => match cur with [] => [] | _ => [rev cur] end
  | c :: t => if is_space c
              then match cur with
                   | [] => words_aux [] t
                   | _ => rev cur :: words_aux [] t
                   end
              else words_aux (c :: cur) t
  end.
Definition words (s : string) : list string := map to_string (words_aux [] (of_string s)).

(** [s.isascii()] *)
Definition isascii (s : string) : bool :=
  forallb (fun c => (code c <? 128)%nat) (of_string s).

End Str.

(* ================================================================== *)
(** * Numbers *)

Module Num.

Definition digit_val (c : ascii) : Z := Z.of_nat (Str.code c - 48).

Definition digits_value (ds : Str.chars) : Z :=
  fold_left (fun acc d => (acc * 10 + digit_val d)%Z) ds 0%Z.

Fixpoint span_digits (s : Str.chars) : Str.chars * Str.chars :=
  match s with
  | c :: t => if Str.is_digit c
              then let (ds, rest) := span_digits t in (c :: ds, rest)
              else ([], s)
  | [] => ([], [])
  end.

Definition pow10 (k : nat) : positive := Z.to_pos (10 ^ Z.of_nat k).

(** [float(s)] on the decimal literals the patterns capture: digits,
    optionally followed by a point and more digits.  Any other text is a
    [ValueError], here [None]. *)
Definition py_float (s : Str.chars) : option Q :=
  match span_digits s with
  | ([], _) => None
  | (ip, []) => Some (Qmake (digits_value ip) 1)
  | (ip, dot :: fs) =>
      if Ascii.eqb dot "."
      then match span_digits fs with
           | ([], _) => None
           | (fp, []) => Some (Qmake (digits_value (ip ++ fp)) (pow10 (length fp)))
           | (_, _ :: _) => None
           end
      else None
  end.

Definition Qlt_bool (a b : Q) : bool := negb (Qle_bool b a).

(** [min(xs)]: the first least element; [None] stands for the
    [ValueError] on an empty list. *)
Definition py_min (xs : list Q) : option Q :=
  match xs with
  | [] => None
  | x :: t => Some (fold_left (fun best y => if Qlt_bool y best then y else best) t x)
  end.

(** Nearest integer to [q], ties to the even one. *)
Definition round_half_even (q : Q) : Z :=
  let n := Qnum q in
  let d := Zpos (Qden q) in
  let f := (n / d)%Z in
  let r := (2 * (n - f * d))%Z in
  if (r <? d)%Z then f
  else if (d <? r)%Z then (f + 1)%Z
  else if Z.even f then f else (f + 1)%Z.

(** [round(q, 2)] *)
Definition round2 (q : Q) : Q := Qmake (round_half_even (q * 100)) 100.

(** Truthiness of a float: [if x]. *)
Definition nonzero (q : Q) : bool := negb (Qeq_bool q 0).

End Num.

(* ================================================================== *)
(** * Regular expressions

    The patterns of [data_extractors.py] use literals, quantified
    character classes, [\b], alternation, an optional non-capturing group
    and capturing groups.  [exec] returns every way the pattern matches at
    the cursor, in the order in which a backtracking matcher tries them:
    greedy quantifiers longest first, alternatives left to right.  The
    head of the list is the match [re] reports. *)

Module Re.
Import Str.

Inductive regex : Type :=
| Eps
| Chr (c : ascii)
| Rep (cls : ascii -> bool) (lo : nat) (hi : option nat)
| WordB
| Seq (r1 r2 : regex)
| Alt (r1 r2 : regex)
| Opt (r : regex)
| Group (n : nat) (r : regex).

(** A position in the text: the characters before it (nearest first),
    those after it, and the groups captured so far. *)
Record cursor : Type := Cursor {
  before : chars;
  after : chars;
  groups : gmap nat chars
}.

Definition start_of (bef aft : chars) : cursor := Cursor bef aft ∅.

Definition word_at (s : chars) : bool :=
  match s with
  | c :: _ => is_word c
  | [] => false
  end.

(** [\b]: exactly one side of the position is a word character. *)
Definition at_boundary (st : cursor) : bool :=
  xorb (word_at (before st)) (word_at (after st)).

(** Literal comparison, under [re.I] when [ci] is set. *)
Definition chr_eq (ci : bool) (c x : ascii) : bool :=
  if ci then Ascii.eqb (lower_char c) (lower_char x) else Ascii.eqb c x.

Fixpoint advance (n : nat) (st : cursor) : cursor :=
  match n, after st with
  | S k, x :: t => advance k (Cursor (x :: before st) t (groups st))
  | _, _ => st
  end.

(** Length of the longest prefix whose characters are all in [cls]. *)
Fixpoint run (cls : ascii -> bool) (s : chars) : nat :=
  match s with
  | c :: t => if cls c then S (run cls t) else 0
  | [] => 0
  end.

(** The repetition counts a greedy quantifier tries: from the largest
    allowed by the text and the upper bound down to [lo]. *)
Definition rep_counts (lo : nat) (hi : option nat) (avail : nat) : list nat :=
  let top := match hi with Some h => Nat.min h avail | None => avail end in
  rev (seq lo (S top - lo)).

Definition consumed (st st' : cursor) : chars :=
  firstn (length (after st) - length (after st')) (after st).

Definition capture (n : nat) (st st' : cursor) : cursor :=
  Cursor (before st') (after st') (<[n := consumed st st']> (groups st')).

Fixpoint exec (ci : bool) (r : regex) (st : cursor) : list cursor :=
  match r with
  | Eps => [st]
  | Chr c =>
      match after st with
      | x :: _ => if chr_eq ci c x then [advance 1 st] else []
      | [] => []
      end
  | Rep cls lo hi =>
      map (fun n => advance n st) (rep_counts lo hi (run cls (after st)))
  | WordB => if at_boundary st then [st] else []
  | Seq r1 r2 => flat_map (exec ci r2) (exec ci r1 st)
  | Alt r1 r2 => exec ci r1 st ++ exec ci r2 st
  | Opt r1 => exec ci r1 st ++ [st]
  | Group n r1 => map (capture n st) (exec ci r1 st)
  end.

(** A match object: where the match starts and where it ends. *)
Record found : Type := Found { m_start : cursor; m_stop : cursor }.

(** [match.group(n)] *)
Definition group (n : nat) (f : found) : option chars := groups (m_stop f) !! n.

(** [pattern.search(text)]: the first position, from the left, at which
    the pattern matches. *)
Fixpoint search_at (ci : bool) (r : regex) (bef aft : chars) : option found :=
  match exec ci r (start_of bef aft) with
  | st' :: _ => Some (Found (start_of bef aft) st')
  | [] => match aft with
          | [] => None
          | x :: t => search_at ci r (x :: bef) t
          end
  end.

Definition search (ci : bool) (r : regex) (text : string) : option found :=
  search_at ci r [] (of_string text).

(** [pattern.finditer(text)]: the successive matches, none overlapping
    the one before.  [skip] counts the characters of the last match that
    the scan has still to pass. *)
Fixpoint finditer_at (ci : bool) (r : regex) (bef aft : chars) (skip : nat)
  : list found :=
  match skip with
  | S k => match aft with
           | [] => []
           | x :: t => finditer_at ci r (x :: bef) t k
           end
  | 0 =>
      match exec ci r (start_of bef aft) with
      | st' :: _ =>
          Found (start_of bef aft) st' ::
          match aft with
          | [] => []
          | x :: t =>
              finditer_at ci r (x :: bef) t
                (length (consumed (start_of bef aft) st') - 1)
          end
      | [] => match aft with
              | [] => []
              | x :: t => finditer_at ci r (x :: bef) t 0
              end
      end
  end.

Definition finditer (ci : bool) (r : regex) (text : string) : list found :=
  finditer_at ci r [] (of_string text) 0.

(** A literal word, character by character. *)
Fixpoint Lit_chars (s : chars) : regex :=
  match s with
  | [] => Eps
  | c :: t => Seq (Chr c) (Lit_chars t)
  end.
Definition Lit (s : string) : regex := Lit_chars (of_string s).

Definition star (cls : ascii -> bool) : regex := Rep cls 0 None.
Definition plus (cls : ascii -> bool) : regex := Rep cls 1 None.
Definition times (k : nat) (cls : ascii -> bool) : regex := Rep cls k (Some k).

End Re.

Declare Scope re_scope.
Delimit Scope re_scope with re.
Bind Scope re_scope with Re.regex.
Infix "+++" := Re.Seq (at level 60, right associativity) : re_scope.
Infix "</>" := Re.Alt (at level 65, right associativity) : re_scope.

(* ================================================================== *)
(** * [models.py] *)

Record ProductData : Type := mkProductData {
  state : string;
  store : string;
  subcategory : string;
  name : string;
  brand : option string;
  strain_type : option string;
  thc_pct : option Q;
  size_raw : option string;
  grams : option Q;
  price : option Q;
  price_per_g : option Q;
  url : option string
}.
(** The field [scraped_at] is the clock reading at construction; it is left
    out of the record. *)

(** The constructor call [ProductData(store=..., ...)] of the assembler:
    [state] and [price_per_g] take their defaults. *)
Definition ProductData_new (store subcategory name : string)
    (brand strain_type : option string) (thc_pct : option Q)
    (size_raw : option string) (grams price : option Q) (url : option string)
  : ProductData :=
  mkProductData "FL" store subcategory name brand strain_type thc_pct
                size_raw grams price None url.

Definition set_price_per_g (p : ProductData) (v : option Q) : ProductData :=
  mkProductData (state p) (store p) (subcategory p) (name p) (brand p)
                (strain_type p) (thc_pct p) (size_raw p) (grams p) (price p)
                v (url p).

(** Truthiness of an [Optional[float]]: [None] and zero are false. *)
Definition truthy (x : option Q) : bool :=
  match x with
  | Some q => Num.nonzero q
  | None => false
  end.

(** [ProductData.calculate_price_per_g]:
    [if self.price and self.grams and self.grams > 0:
         self.price_per_g = round(self.price / self.grams, 2)] *)
Definition calculate_price_per_g (p : ProductData) : ProductData :=
  match price p, grams p with
  | Some pr, Some g =>
      if truthy (price p) && truthy (grams p) && Num.Qlt_bool 0 g
      then set_price_per_g p (Some (Num.round2 (pr / g)))
      else p
  | _, _ => p
  end.

Record CategoryConfig : Type := mkCategory {
  cat_url : string;
  cat_subcategory : string;
  cat_prefix : string
}.

Record StoreInfo : Type := mkStoreInfo {
  store_name : string;
  store_url : string;
  store_location : option string;
  store_state : string
}.

Record ScrapingResult : Type := mkScrapingResult {
  success : bool;
  products : list ProductData;
  error_message : option string;
  categories_scraped : nat;
  stores_scraped : nat;
  total_products : nat
}.
(** [duration_seconds] is a difference of clock readings; it is left out. *)

(** [ScrapingResult.__post_init__]:
    [self.total_products = len(self.products)]. *)
Definition ScrapingResult_post_init (r : ScrapingResult) : ScrapingResult :=
  mkScrapingResult (success r) (products r) (error_message r)
                   (categories_scraped r) (stores_scraped r)
                   (length (products r)).

(** The constructor call [ScrapingResult(success=..., products=...,
    error_message=..., categories_scraped=..., stores_scraped=...,
    duration_seconds=...)].  No caller passes [total_products], so the field
    takes its default, 0.  [ScrapingResult] derives from pydantic's
    [BaseModel], whose construction validates the fields and calls the
    [model_post_init] hook; [__post_init__] is the hook of dataclasses and
    is not called. *)
Definition ScrapingResult_new (success : bool) (products : list ProductData)
    (error_message : option string) (categories_scraped stores_scraped : nat)
  : ScrapingResult :=
  mkScrapingResult success products error_message categories_scraped
                   stores_scraped 0.

(* ================================================================== *)
(** * [scrapers/data_extractors.py]: patterns and pure extractors *)

Import Re.

(** [[0-9]+(?:\.[0-9]+)?] *)
Definition number : regex :=
  (plus Str.is_digit +++ Opt (Chr "." +++ plus Str.is_digit))%re.

(** [PRICE_RE = re.compile(r"\$\s*([0-9]+(?:\.[0-9]{2})?)")] *)
Definition PRICE_RE : regex :=
  (Chr "$" +++ star Str.is_space +++
   Group 1 (plus Str.is_digit +++ Opt (Chr "." +++ times 2 Str.is_digit)))%re.

(** [SIZE_RE = re.compile(r"\b(0\.5g|1g|2g|3\.5g|7g|10g|14g|28g)\b", re.I)] *)
Definition SIZE_RE : regex :=
  (WordB +++
   Group 1 (Lit "0.5g" </> Lit "1g" </> Lit "2g" </> Lit "3.5g" </>
            Lit "7g" </> Lit "10g" </> Lit "14g" </> Lit "28g") +++
   WordB)%re.

(** [THC_SINGLE_RE =
     re.compile(r"\bTHC\b[^0-9]*([0-9]+(?:\.[0-9]+)?)\s*%", re.I)] *)
Definition THC_SINGLE_RE : regex :=
  (WordB +++ Lit "THC" +++ WordB +++ star Str.non_digit +++
   Group 1 number +++ star Str.is_space +++ Chr "%")%re.

(** [THC_RANGE_RE = re.compile(
     r"\bTHC\b[^0-9]*([0-9]+(?:\.[0-9]+)?)\s*%[^0-9]+([0-9]+(?:\.[0-9]+)?)\s*%",
     re.I)] *)
Definition THC_RANGE_RE : regex :=
  (WordB +++ Lit "THC" +++ WordB +++ star Str.non_digit +++
   Group 1 number +++ star Str.is_space +++ Chr "%" +++
   plus Str.non_digit +++
   Group 2 number +++ star Str.is_space +++ Chr "%")%re.

Definition SIZE_MAP : gmap string Q :=
  list_to_map [("0.5g", 0.5%Q); ("1g", 1.0%Q); ("2g", 2.0%Q); ("3.5g", 3.5%Q);
               ("7g", 7.0%Q); ("10g", 10.0%Q); ("14g", 14.0%Q); ("28g", 28.0%Q)].

(** [grams_from_size] *)
Definition grams_from_size (size_str : option string) : option Q :=
  match size_str with
  | None => None
  | Some s => if Str.nonempty s then SIZE_MAP !! Str.lower s else None
  end.

(** [looks_like_florida] *)
Definition looks_like_florida (href text : option string) : bool :=
  let t := Str.upper (default "" text) in
  let h := Str.lower (default "" href) in
  Str.contains ", FL" t
  || Str.ends_with " FL" t
  || Str.contains " FL " t
  || existsb (fun v => Str.contains v h) ["/florida"; "-fl-"]
  || existsb (fun v => Str.ends_with v h) ["/fl"; "-fl"].

Definition is_slash (c : ascii) : bool := Ascii.eqb c "/".

(** [product_slug]:
    [href.split("/product/", 1)[1].split("?", 1)[0].split("#", 1)[0].strip("/")],
    and [href] itself when the first split has no second element. *)
Definition product_slug (href : option string) : string :=
  match href with
  | None => ""
  | Some h =>
      if Str.nonempty h then
        match snd (Str.split_once (Str.of_string "/product/") (Str.of_string h)) with
        | Some tail =>
            let no_query := fst (Str.split_once (Str.of_string "?") tail) in
            let no_anchor := fst (Str.split_once (Str.of_string "#") no_query) in
            Str.to_string (Str.strip_by is_slash no_anchor)
        | None => h
        end
      else ""
  end.

(** The numbers captured by the matches of [PRICE_RE], in text order; a
    capture that [float] rejects is skipped. *)
Definition matched_prices (blob : string) : list Q :=
  omap (fun f => group 1 f ≫= Num.py_float) (finditer false PRICE_RE blob).

(** Lines 123 to 136 of [extract_price_from_card], shared with
    [extract_price_from_pdp]: [min(prices) if prices else None]. *)
Definition price_from_blob (blob : string) : option Q :=
  Num.py_min (matched_prices blob).

(** [extract_size_from_text] *)
Definition extract_size_from_text (text : string) : option string :=
  if Str.nonempty text then
    match search true SIZE_RE text with
    | Some f => option_map (fun g => Str.lower (Str.to_string g)) (group 1 f)
    | None => None
    end
  else None.

Definition strain_types : list string := ["Indica"; "Sativa"; "Hybrid"].

(** [rf"\b{strain_type}\b"] *)
Definition strain_word (strain_type : string) : regex :=
  (WordB +++ Lit strain_type +++ WordB)%re.

Definition is_match (o : option found) : bool :=
  match o with Some _ => true | None => false end.

(** [extract_strain_type_from_text]: the loop over the three keywords
    returns at the first one that is found. *)
Definition extract_strain_type_from_text (text : string) : option string :=
  if Str.nonempty text then
    find (fun strain_type => is_match (search true (strain_word strain_type) text))
         strain_types
  else None.

(** [extract_thc_from_text] *)
Definition extract_thc_from_text (text : string) : option Q :=
  if Str.nonempty text then
    let single :=
      match search true THC_SINGLE_RE text with
      | Some f => group 1 f ≫= Num.py_float
      | None => None
      end in
    match search true THC_RANGE_RE text with
    | Some f =>
        match group 1 f ≫= Num.py_float with
        | Some v => Some v
        | None => single
        end
    | None => single
    end
  else None.

(* ================================================================== *)
(** * [scrapers/data_extractors.py]: extraction from a product card

    A card is what its locators return: the link elements that carry the
    product name, the visible text, the text of the elements that the price
    and brand selectors and the strain text selector pick.  A call whose
    failure the code handles on its own is an [outcome]. *)

Record NameLink : Type := mkNameLink {
  link_text : option string;      (* text_content() *)
  link_href : option string       (* get_attribute("href") *)
}.

Record Card : Type := mkCard {
  card_name_links : list NameLink;
  card_inner_text : outcome string;
  card_price_texts : list (outcome (option string));
  card_brand_texts : list (option string);
  card_strain_texts : list (option string)
}.

(** The detail page of a product, reached through the browser context:
    the text of its body when navigation succeeds, and the brand that the
    tiered lookup of [extract_brand_from_pdp] finds there. *)
Record Context : Type := mkContext {
  pdp_body_text : string -> outcome string;
  pdp_brand : string -> option string
}.

(** [urljoin(base_url, href)] for a base without a path, as configured: an
    absolute [href] is kept, a site-relative one is appended to the base. *)
Definition urljoin (base_url href : string) : string :=
  if Str.starts_with (Str.of_string "http") (Str.of_string href) then href
  else base_url ++ href.

(** [extract_price_from_card] *)
Definition price_texts (card : Card) : list string :=
  omap (fun t => match t with
                 | Ok (Some text) =>
                     if Str.nonempty text && Str.contains "$" text
                     then Some text else None
                 | _ => None
                 end)
       (firstn 4 (card_price_texts card)).

Definition extract_price_from_card (card : Card) : option Q :=
  match price_texts card with
  | [] =>
      match card_inner_text card with
      | Ok card_text =>
          price_from_blob
            (Str.join " " (if Str.nonempty card_text then [card_text] else []))
      | Raised _ => None
      end
  | texts => price_from_blob (Str.join " " texts)
  end.

(** [extract_price_from_pdp] *)
Definition extract_price_from_pdp (context : Context) (url : string) : option Q :=
  if Str.nonempty url then
    match pdp_body_text context url with
    | Ok body_text => price_from_blob body_text
    | Raised _ => None
    end
  else None.

(** [extract_brand_from_card]: the first selector whose first element has
    text that is not blank. *)
Definition extract_brand_from_card (card : Card) : option string :=
  match
    find (fun t => match t with
                   | Some brand_text =>
                       Str.nonempty brand_text && Str.nonempty (Str.strip brand_text)
                   | None => false
                   end)
         (card_brand_texts card)
  with
  | Some (Some brand_text) => Some (Str.strip brand_text)
  | _ => None
  end.

(** [extract_brand_from_pdp] *)
Definition extract_brand_from_pdp (context : Context) (url : string) : option string :=
  if Str.nonempty url then pdp_brand context url else None.

(** [r"(Indica|Sativa|Hybrid)"] *)
Definition STRAIN_ANY : regex :=
  Group 1 (Lit "Indica" </> Lit "Sativa" </> Lit "Hybrid")%re.

(** [extract_strain_type_from_card] *)
Definition extract_strain_type_from_card (card : Card) : option string :=
  let from_element :=
    match card_strain_texts card with
    | Some text :: _ =>
        if Str.nonempty text then
          match search true STRAIN_ANY text with
          | Some f => option_map (fun g => Str.capitalize (Str.to_string g)) (group 1 f)
          | None => None
          end
        else None
    | _ => None
    end in
  match from_element with
  | Some s => Some s
  | None =>
      match card_inner_text card with
      | Ok card_text => extract_strain_type_from_text card_text
      | Raised _ => None
      end
  end.

(** [extract_product_data_from_card] *)
Definition extract_product_data_from_card (card : Card)
    (category_config : CategoryConfig) (store_name : string)
    (context : option Context) (base_url : string) : option ProductData :=
  match card_name_links card with
  | [] => None
  | name_link :: _ =>
      match link_text name_link with
      | None => None
      | Some raw =>
          if Str.nonempty raw && Str.nonempty (Str.strip raw) then
            let name := Str.strip raw in
            let url :=
              match link_href name_link with
              | Some href => if Str.nonempty href then Some (urljoin base_url href) else None
              | None => None
              end in
            match card_inner_text card with
            | Raised _ => None
            | Ok card_text =>
                let size := extract_size_from_text card_text in
                let grams := grams_from_size size in
                let price := extract_price_from_card card in
                let brand := extract_brand_from_card card in
                let pdp :=
                  match context, url with
                  | Some ctx, Some u =>
                      if Str.nonempty u && (negb (bool_decide (is_Some price)) || negb (bool_decide (is_Some brand)))
                      then Some (ctx, u) else None
                  | _, _ => None
                  end in
                let price' :=
                  match price, pdp with
                  | None, Some (ctx, u) => extract_price_from_pdp ctx u
                  | _, _ => price
                  end in
                let brand' :=
                  match brand, pdp with
                  | None, Some (ctx, u) =>
                      match extract_brand_from_pdp ctx u with
                      | Some b => if Str.nonempty b then Some b else None
                      | None => None
                      end
                  | _, _ => brand
                  end in
                let strain_type := extract_strain_type_from_card card in
                let thc_pct := extract_thc_from_text card_text in
                let product :=
                  ProductData_new store_name (cat_subcategory category_config)
                                  name brand' strain_type thc_pct size grams
                                  price' url in
                Some (calculate_price_per_g product)
            end
          else None
      end
  end.

(* ================================================================== *)
(** * [scrapers/trulieve_scraper.py]: loading all products *)

(** What one round of the loop meets on the page. *)
Inductive round : Type :=
| MoreLoaded    (* a visible "Load More" button, and the click succeeds *)
| ClickFails    (* a visible button, and the click raises *)
| NoButton      (* no visible button *)
| RoundFails.   (* scrolling, waiting or looking for the button raises *)

(** [_load_all_products]: [while True] with a [continue] after a click
    that succeeds and a [break] on every other path.  The page answers
    round by round; [fuel] bounds the rounds the model follows, the source
    has no bound.  The result is the number of clicks made when the loop
    ends within the fuel. *)
Fixpoint _load_all_products (page : nat -> round) (round_no fuel : nat) : option nat :=
  match fuel with
  | 0 => None
  | S fuel' =>
      match page round_no with
      | MoreLoaded => option_map S (_load_all_products page (S round_no) fuel')
      | ClickFails | NoButton | RoundFails => Some 0
      end
  end.

(* ================================================================== *)
(** * [scrapers/base_scraper.py]: navigation

    The browser is a collaborator.  What it does is recorded in a [world]:
    the number of [page.goto] calls made so far and the trace of
    navigations and pauses.  What it answers is given by a [Site]. *)

Inductive event : Type :=
| EvGoto (url : string)
| EvSleep (seconds : Q)
| EvRateLimit.

Record world : Type := World {
  navs : nat;
  trace : list event
}.

Definition M (A : Type) : Type := world -> outcome A * world.

Definition ret {A} (a : A) : M A := fun w => (Ok a, w).
Definition bind {A B} (c : M A) (k : A -> M B) : M B :=
  fun w => match c w with
           | (Ok a, w') => k a w'
           | (Raised e, w') => (Raised e, w')
           end.
Notation "x <- c ;; k" := (bind c (fun x => k))
  (at level 100, c at next level, right associativity).

Definition emit (e : event) : M unit :=
  fun w => (Ok tt, World (navs w) (trace w ++ [e])).

(** [await asyncio.sleep(seconds)] *)
Definition sleep (seconds : Q) : M unit := emit (EvSleep seconds).

(** [_apply_rate_limit]: a pause of random length between the configured
    bounds. *)
Definition _apply_rate_limit : M unit := emit EvRateLimit.

Record Anchor : Type := mkAnchor {
  a_href : outcome (option string);    (* get_attribute("href") *)
  a_text : outcome (option string)     (* text_content() *)
}.

(** A product name link on a category page: its enclosing card and its own
    [href] attribute. *)
Record Link : Type := mkLink {
  l_card : Card;
  l_href : outcome (option string)
}.

Record Site : Type := mkSite {
  (** outcome of the [n]-th call of [page.goto], for the given address *)
  goto_result : nat -> string -> outcome unit;
  (** [page.locator("a[href^='/dispensaries/']").all()] *)
  directory_anchors : outcome (list Anchor);
  (** whether "Shop At This Store" is found and clicked *)
  shop_button : StoreInfo -> bool;
  (** what each round of [_load_all_products] meets on a category page *)
  load_more : StoreInfo -> CategoryConfig -> nat -> round;
  (** the product name links of a category page once the listing is
      expanded *)
  category_links : StoreInfo -> CategoryConfig -> outcome (list Link);
  site_context : Context
}.

(** [page.goto(url, ...)] *)
Definition page_goto (site : Site) (url : string) : M unit :=
  fun w => (goto_result site (navs w) url,
            World (S (navs w)) (trace w ++ [EvGoto url])).

Definition pow2 (attempt : nat) : Q := inject_Z (2 ^ Z.of_nat attempt).

(** The [for attempt in range(max_retries + 1)] loop of
    [_retry_operation], over the attempts still to make. *)
Fixpoint retry_loop {A} (operation : M A) (max_retries : nat) (delay : Q)
    (attempts : list nat) (last_exception : option exn) : M A :=
  match attempts with
  | [] =>
      fun w =>
        (Raised (default "exceptions must derive from BaseException" last_exception), w)
  | attempt :: rest =>
      fun w =>
        match operation w with
        | (Ok a, w') => (Ok a, w')
        | (Raised e, w') =>
            if (attempt <? max_retries)%nat
            then match sleep (delay * pow2 attempt) w' with
                 | (_, w'') => retry_loop operation max_retries delay rest (Some e) w''
                 end
            else retry_loop operation max_retries delay rest (Some e) w'
        end
  end.

(** [_retry_operation(operation, max_retries=3, delay=1.0)] *)
Definition _retry_operation {A} (operation : M A) (max_retries : nat) (delay : Q) : M A :=
  retry_loop operation max_retries delay (seq 0 (max_retries + 1)) None.

(** [_safe_page_goto]: both handlers log and re-raise. *)
Definition _safe_page_goto (site : Site) (url : string) : M unit :=
  _ <- _retry_operation (page_goto site url) 3 1.0 ;;
  _apply_rate_limit.

(* ================================================================== *)
(** * [scrapers/trulieve_scraper.py] *)

(** A category of the configuration is a [Dict[str, str]]. *)
Definition Dict : Type := gmap string string.

(** [d[key]]; the message of the [KeyError] is the key in quotes. *)
Definition getitem (d : Dict) (key : string) : outcome string :=
  match d !! key with
  | Some v => Ok v
  | None => Raised ("'" ++ key ++ "'")%string
  end.

(** [{"url": ..., "subcategory": ..., "prefix": ...}] *)
Definition category_dict (url subcategory prefix : string) : Dict :=
  list_to_map [("url", url); ("subcategory", subcategory); ("prefix", prefix)].

Record ScrapingConfig : Type := mkConfig {
  base_url : string;
  dispensaries_url : string;
  categories : list Dict
}.

Definition default_config : ScrapingConfig :=
  mkConfig "https://www.trulieve.com" "https://www.trulieve.com/dispensaries"
    [ category_dict "/category/flower/whole-flower" "Whole Flower" "trulieve_FL_whole_flower";
      category_dict "/category/flower/pre-rolls" "Pre-Rolls" "trulieve_FL_pre_rolls";
      category_dict "/category/flower/minis" "Ground & Shake" "trulieve_FL_ground_shake" ].

(** The first loop of [extract_store_links]: one anchor. *)
Definition add_anchor (config : ScrapingConfig)
    (acc : list (string * string) * gset string) (anchor : Anchor)
  : list (string * string) * gset string :=
  let '(raw_stores, seen_hrefs) := acc in
  match a_href anchor, a_text anchor with
  | Ok (Some href), Ok text =>
      if Str.nonempty href && Str.contains "/dispensaries/" href
         && negb (bool_decide (href ∈ seen_hrefs))
      then
        let text := Str.join " " (Str.words (default "" text)) in
        if looks_like_florida (Some href) (Some text)
        then (raw_stores ++ [(text, urljoin (base_url config) href)],
              {[href]} ∪ seen_hrefs)
        else acc
      else acc
  | _, _ => acc
  end.

(** The second loop: the first store of each name. *)
Definition add_store (acc : list StoreInfo * gset string) (raw : string * string)
  : list StoreInfo * gset string :=
  let '(unique_stores, seen_names) := acc in
  let '(name, url) := raw in
  if bool_decide (name ∈ seen_names) then acc
  else (unique_stores ++ [mkStoreInfo name url (Some name) "FL"],
        {[name]} ∪ seen_names).

Definition stores_of_anchors (config : ScrapingConfig) (anchors : list Anchor)
  : list StoreInfo :=
  let raw_stores := fst (fold_left (add_anchor config) anchors ([], ∅)) in
  fst (fold_left add_store raw_stores ([], ∅)).

(** [TrulieveScraper.extract_store_links]: the whole body is inside
    [try: ... except Exception as e: logger.error(...); return []]. *)
Definition Trulieve_extract_store_links (config : ScrapingConfig) (site : Site)
  : M (list StoreInfo) :=
  fun w =>
    match _safe_page_goto site (dispensaries_url config) w with
    | (Raised _, w') => (Ok [], w')
    | (Ok _, w') =>
        match directory_anchors site with
        | Raised _ => (Ok [], w')
        | Ok anchors => (Ok (stores_of_anchors config anchors), w')
        end
    end.

(** [TrulieveScraper._set_store_location] *)
Definition _set_store_location (site : Site) (store : StoreInfo) : world -> bool * world :=
  fun w =>
    match _safe_page_goto site (store_url store) w with
    | (Ok _, w') => (shop_button site store, w')
    | (Raised _, w') => (false, w')
    end.

Definition dedup_key : Type := string * string * option string * string.

(** The body of [for link in name_links] in [scrape_category]. *)
Definition process_link (config : ScrapingConfig) (site : Site)
    (category_config : CategoryConfig) (store : StoreInfo)
    (acc : list ProductData * gset dedup_key) (link : Link)
  : list ProductData * gset dedup_key :=
  let '(products, seen_keys) := acc in
  match extract_product_data_from_card (l_card link) category_config
          (store_name store) (Some (site_context site)) (base_url config) with
  | Some product =>
      match l_href link with
      | Ok href =>
          let slug := product_slug href in
          let key := (store_name store, slug, size_raw product,
                      cat_subcategory category_config) in
          if bool_decide (key ∈ seen_keys) then acc
          else (products ++ [product], {[key]} ∪ seen_keys)
      | Raised _ => acc
      end
  | None => acc
  end.

Definition process_links (config : ScrapingConfig) (site : Site)
    (category_config : CategoryConfig) (store : StoreInfo) (name_links : list Link)
  : list ProductData :=
  fst (fold_left (process_link config site category_config store) name_links ([], ∅)).

(** A call that may not return: [None] when it does not. *)
Definition P (A : Type) : Type := world -> option (outcome A * world).

(** [TrulieveScraper.scrape_category].  The first line reads
    [category_config['subcategory']] outside the [try]; the body is inside
    a [try] whose handler returns the empty list.  The loop of
    [_load_all_products] is followed for [fuel] rounds. *)
Definition Trulieve_scrape_category (fuel : nat) (config : ScrapingConfig) (site : Site)
    (category_config : Dict) (store : StoreInfo) : P (list ProductData) :=
  fun w =>
    match getitem category_config "subcategory" with
    | Raised e => Some (Raised e, w)
    | Ok subcategory =>
        let '(_, w1) := _set_store_location site store w in
        match getitem category_config "url" with
        | Raised _ => Some (Ok [], w1)
        | Ok url =>
            let category :=
              mkCategory url subcategory (default "" (category_config !! "prefix")) in
            match _safe_page_goto site (urljoin (base_url config) url) w1 with
            | (Raised _, w2) => Some (Ok [], w2)
            | (Ok _, w2) =>
                match _load_all_products (load_more site store category) 0 fuel with
                | None => None
                | Some _ =>
                    match category_links site store category with
                    | Raised _ => Some (Ok [], w2)
                    | Ok name_links =>
                        Some (Ok (process_links config site category store name_links), w2)
                    end
                end
            end
        end
    end.

(* ================================================================== *)
(** * [scrapers/base_scraper.py] and [scrapers/base_scraper_sync.py]:
      the run coordinators *)

(** The two abstract methods of [BaseScraper] and of [BaseScraperSync]. *)
Class Scraper : Type := {
  extract_store_links : P (list StoreInfo);
  scrape_category : Dict -> StoreInfo -> P (list ProductData)
}.

#[export] Instance TrulieveScraper (fuel : nat) (config : ScrapingConfig) (site : Site)
  : Scraper := {
  extract_store_links := fun w => Some (Trulieve_extract_store_links config site w);
  scrape_category := Trulieve_scrape_category fuel config site
}.

(** The names a module binds at its top level: what it imports, [logger]
    and its class.  [base_scraper.py] imports [sync_playwright] (line 9)
    and never [async_playwright]. *)
Definition base_scraper_names : list string :=
  ["asyncio"; "random"; "logging"; "sys"; "ABC"; "abstractmethod";
   "List"; "Optional"; "Dict"; "Any";
   "sync_playwright"; "Browser"; "BrowserContext"; "Page"; "PlaywrightTimeoutError";
   "ProductData"; "ScrapingConfig"; "ScrapingResult"; "StoreInfo";
   "load_settings"; "logger"; "BaseScraper"].

Definition base_scraper_sync_names : list string :=
  ["random"; "logging"; "sys"; "time"; "ABC"; "abstractmethod";
   "List"; "Optional"; "Dict"; "Any";
   "sync_playwright"; "Browser"; "BrowserContext"; "Page"; "PlaywrightTimeoutError";
   "ProductData"; "ScrapingConfig"; "ScrapingResult"; "StoreInfo";
   "load_settings"; "logger"; "BaseScraperSync"].

(** Evaluating a name that is neither local nor builtin: [NameError] when
    the module does not bind it. *)
Definition global_name (module_names : list string) (name : string) : outcome unit :=
  if existsb (String.eqb name) module_names then Ok tt
  else Raised ("name '" ++ name ++ "' is not defined")%string.

(** What the environment of a run of [BaseScraper] answers: the Windows
    branch of line 198 ([Ok] on another platform), the browser session
    (entering the playwright block, launching the browser, the context and
    the page) and [browser.close()] with the exit of the block. *)
Record Session : Type := mkSession {
  platform_fix : outcome unit;
  launch : outcome unit;
  close : outcome unit
}.

(** The same for [BaseScraperSync], which has no Windows branch and loads
    the home page, [page.goto(self.settings.base_url)] and
    [_wait_for_page_load], before it looks for stores. *)
Record SyncSession : Type := mkSyncSession {
  sync_launch : outcome unit;
  sync_home : outcome unit;
  sync_close : outcome unit
}.

(** The local variables of [scrape_all_categories]; they keep their values
    when an exception is caught. *)
Record locals : Type := mkLocals {
  l_world : world;
  all_products : list ProductData;
  n_stores : nat;
  n_categories : nat
}.

Definition set_world (st : locals) (w : world) : locals :=
  mkLocals w (all_products st) (n_stores st) (n_categories st).

(** The body of [for category in self.config.categories], the same in both
    classes.  The first line of the [try] and the handler both read
    [category['subcategory']]: without the key the handler raises in its
    turn, and the error leaves the loop.  An error of [scrape_category] or
    of the pause is logged by the handler, and the loop goes on. *)
Definition scrape_one_category `{Scraper} (store : StoreInfo) (st : locals)
    (category : Dict) : option (outcome unit * locals) :=
  match getitem category "subcategory" with
  | Raised e => Some (Raised e, st)
  | Ok _ =>
      match scrape_category category store (l_world st) with
      | None => None
      | Some (Ok products, w) =>
          let '(_, w') := _apply_rate_limit w in
          Some (Ok tt, mkLocals w' (all_products st ++ products) (n_stores st)
                                (S (n_categories st)))
      | Some (Raised _, w) => Some (Ok tt, set_world st w)
      end
  end.

Fixpoint scrape_categories `{Scraper} (store : StoreInfo) (cats : list Dict)
    (st : locals) : option (outcome unit * locals) :=
  match cats with
  | [] => Some (Ok tt, st)
  | category :: rest =>
      match scrape_one_category store st category with
      | None => None
      | Some (Ok _, st') => scrape_categories store rest st'
      | Some (Raised e, st') => Some (Raised e, st')
      end
  end.

(** The body of [for store in stores]: an error that leaves the loop over
    the categories is logged by the handler of the store, which is then
    neither counted nor followed by the pause. *)
Definition scrape_one_store `{Scraper} (config : ScrapingConfig) (st : locals)
    (store : StoreInfo) : option locals :=
  match scrape_categories store (categories config) st with
  | None => None
  | Some (Ok _, st') =>
      let '(_, w) := sleep 2 (l_world st') in
      Some (mkLocals w (all_products st') (S (n_stores st')) (n_categories st'))
  | Some (Raised _, st') => Some st'
  end.

Fixpoint scrape_stores `{Scraper} (config : ScrapingConfig) (stores : list StoreInfo)
    (st : locals) : option locals :=
  match stores with
  | [] => Some st
  | store :: rest =>
      match scrape_one_store config st store with
      | None => None
      | Some st' => scrape_stores config rest st'
      end
  end.

(** From [stores = self.extract_store_links(page)] to [browser.close()]. *)
Definition scrape_discovered `{Scraper} (config : ScrapingConfig)
    (closing : outcome unit) (st : locals) : option (outcome unit * locals) :=
  match extract_store_links (l_world st) with
  | None => None
  | Some (Raised e, w) => Some (Raised e, set_world st w)
  | Some (Ok stores, w) =>
      match scrape_stores config stores (set_world st w) with
      | None => None
      | Some st' => Some (closing, st')
      end
  end.

(** The result built from what the [try] block left. *)
Definition result_of (tried : outcome unit * locals) : ScrapingResult * world :=
  match tried with
  | (Raised e, st) =>
      (ScrapingResult_new false [] (Some e) (n_categories st) (n_stores st),
       l_world st)
  | (Ok _, st) =>
      (ScrapingResult_new true (all_products st) None (n_categories st) (n_stores st),
       l_world st)
  end.

(** The [try] block of [BaseScraper.scrape_all_categories].  Line 202
    evaluates the name [async_playwright]. *)
Definition run_workflow `{Scraper} (config : ScrapingConfig) (session : Session)
    (st : locals) : option (outcome unit * locals) :=
  match platform_fix session with
  | Raised e => Some (Raised e, st)
  | Ok _ =>
      match global_name base_scraper_names "async_playwright" with
      | Raised e => Some (Raised e, st)
      | Ok _ =>
          match launch session with
          | Raised e => Some (Raised e, st)
          | Ok _ => scrape_discovered config (close session) st
          end
      end
  end.

(** [BaseScraper.scrape_all_categories] *)
Definition scrape_all_categories `{Scraper} (config : ScrapingConfig)
    (session : Session) (w : world) : option (ScrapingResult * world) :=
  option_map result_of (run_workflow config session (mkLocals w [] 0 0)).

(** [page.goto(url)] without a retry: one more navigation. *)
Definition visit (url : string) (w : world) : world :=
  World (S (navs w)) (trace w ++ [EvGoto url]).

(** The [try] block of [BaseScraperSync.scrape_all_categories]; line 119
    evaluates the name [sync_playwright]. *)
Definition Sync_run_workflow `{Scraper} (config : ScrapingConfig)
    (settings_base_url : string) (session : SyncSession) (st : locals)
  : option (outcome unit * locals) :=
  match global_name base_scraper_sync_names "sync_playwright" with
  | Raised e => Some (Raised e, st)
  | Ok _ =>
      match sync_launch session with
      | Raised e => Some (Raised e, st)
      | Ok _ =>
          let w := visit settings_base_url (l_world st) in
          match sync_home session with
          | Raised e => Some (Raised e, set_world st w)
          | Ok _ => scrape_discovered config (sync_close session) (set_world st w)
          end
      end
  end.

(** [BaseScraperSync.scrape_all_categories] *)
Definition Sync_scrape_all_categories `{Scraper} (config : ScrapingConfig)
    (settings_base_url : string) (session : SyncSession) (w : world)
  : option (ScrapingResult * world) :=
  option_map result_of
    (Sync_run_workflow config settings_base_url session (mkLocals w [] 0 0)).

Definition world0 : world := World 0 [].

(* ================================================================== *)
(** * [storage/csv_storage.py]: files by category *)

(** [category_groups[subcategory].append(product)], the key being created
    on first use; a dictionary keeps its keys in the order of insertion. *)
Fixpoint group_append (key : string) (product : ProductData)
    (groups : list (string * list ProductData)) : list (string * list ProductData) :=
  match groups with
  | [] => [(key, [product])]
  | (k, ps) :: rest =>
      if String.eqb k key then (k, ps ++ [product]) :: rest
      else (k, ps) :: group_append key product rest
  end.

Definition category_groups (products : list ProductData)
  : list (string * list ProductData) :=
  fold_left (fun groups product => group_append (subcategory product) product groups)
            products [].

Definition category_prefixes : gmap string string :=
  list_to_map [("Whole Flower", "trulieve_FL_whole_flower");
               ("Pre-Rolls", "trulieve_FL_pre_rolls");
               ("Ground & Shake", "trulieve_FL_ground_shake")].

(** [s.replace(' ', '_')] *)
Definition underscore (s : string) : string :=
  Str.to_string (map (fun c => if Ascii.eqb c " " then "_"%char else c) (Str.of_string s)).

(** [category_prefixes.get(subcategory,
      f"trulieve_FL_{subcategory.lower().replace(' ', '_')}")] *)
Definition category_prefix (subcategory : string) : string :=
  default ("trulieve_FL_" ++ underscore (Str.lower subcategory))%string
          (category_prefixes !! subcategory).

(** [save_products_to_csv]: the guard on an empty list, then the file is
    written.  [write prefix products] stands for the body of the [try]:
    the path of the file written, or the error raised on the way. *)
Definition save_products_to_csv (write : string -> list ProductData -> outcome string)
    (products : list ProductData) (prefix : string) : outcome string :=
  match products with
  | [] => Raised "No products provided to save"
  | _ => write prefix products
  end.

(** [save_by_category]: one call of [save_products_to_csv] for each group,
    in the order of the groups; a call that raises is logged and leaves no
    path. *)
Definition save_by_category (write : string -> list ProductData -> outcome string)
    (products : list ProductData) : list string :=
  match products with
  | [] => []
  | _ =>
      omap (fun g : string * list ProductData =>
              match save_products_to_csv write (snd g) (category_prefix (fst g)) with
              | Ok filepath => Some filepath
              | Raised _ => None
              end)
           (category_groups products)
  end.

(* ================================================================== *)
(** * [tools.py]: recommendations *)

Definition price_advice : string :=
  "Price data extraction could be improved - check price selectors and PDP extraction logic".
Definition brand_advice : string :=
  "Brand extraction needs attention - consider improving brand detection from breadcrumbs and product pages".
Definition thc_advice : string :=
  "THC content extraction is incomplete - verify regex patterns for THC percentage detection".
Definition strain_advice : string :=
  "Strain type detection could be enhanced - check for strain type keywords in product descriptions".
Definition size_advice : string :=
  "Size/weight extraction needs improvement - verify regex patterns for size detection".
Definition all_good : string :=
  "Data quality looks good! All fields have acceptable completeness rates.".

Definition _generate_data_quality_recommendations
    (price_completeness brand_completeness thc_completeness
     strain_completeness size_completeness : Q) : list string :=
  let recommendations := [] in
  let recommendations :=
    if Num.Qlt_bool price_completeness 90
    then recommendations ++ [price_advice] else recommendations in
  let recommendations :=
    if Num.Qlt_bool brand_completeness 80
    then recommendations ++ [brand_advice] else recommendations in
  let recommendations :=
    if Num.Qlt_bool thc_completeness 70
    then recommendations ++ [thc_advice] else recommendations in
  let recommendations :=
    if Num.Qlt_bool strain_completeness 60
    then recommendations ++ [strain_advice] else recommendations in
  let recommendations :=
    if Num.Qlt_bool size_completeness 85
    then recommendations ++ [size_advice] else recommendations in
  match recommendations with
  | [] => [all_good]
  | _ => recommendations
  end.

(* ================================================================== *)
(** * Vocabulary of the statements

    Predicates, reference readings and sample inputs that the lemmas and
    theorems below are stated with. *)

Section Vocabulary.
Import Str.

Definition same_chars (ci : bool) (l w : chars) : Prop :=
  Forall2 (fun c x => chr_eq ci c x = true) l w.

Definition all_ascii : list ascii := map ascii_of_nat (seq 0 256).

(** Whether group [n] is set somewhere in a pattern. *)
Fixpoint sets_group (n : nat) (r : regex) : bool :=
  match r with
  | Seq r1 r2 | Alt r1 r2 => sets_group n r1 || sets_group n r2
  | Opt r1 => sets_group n r1
  | Group k r1 => Nat.eqb k n || sets_group n r1
  | _ => false
  end.

Definition digits (w : chars) : Prop :=
  w <> [] /\ Forall (fun c => is_digit c = true) w.

(** Digits, optionally followed by a point and more digits. *)
Definition decimal_literal (w : chars) : Prop :=
  exists ip, digits ip /\
    (w = ip \/ exists fp, digits fp /\ w = ip ++ "."%char :: fp).

Definition demo_category : CategoryConfig :=
  mkCategory "/category/flower/whole-flower" "Whole Flower" "trulieve_FL_whole_flower".

Definition demo_config : ScrapingConfig :=
  mkConfig "https://www.trulieve.com" "https://www.trulieve.com/dispensaries"
           [category_dict "/category/flower/whole-flower" "Whole Flower"
                          "trulieve_FL_whole_flower"].

Definition demo_card : Card :=
  mkCard [mkNameLink (Some "Blue Dream") (Some "/product/blue-dream-3-5g")]
         (Ok "Blue Dream Premium Cannabis $25.99 3.5g THC: 18.5% Hybrid")
         [Ok (Some "$25.99")] [Some "Premium Cannabis"] [Some "Hybrid"].

Definition no_detail_pages : Context :=
  mkContext (fun _ => Raised "Timeout 20000ms exceeded") (fun _ => None).

(** A site with one Florida store whose category page lists one product. *)
Definition demo_site : Site :=
  mkSite (fun _ _ => Ok tt)
         (Ok [mkAnchor (Ok (Some "/dispensaries/miami-fl")) (Ok (Some "Miami Beach, FL"))])
         (fun _ => true)
         (fun _ _ _ => NoButton)
         (fun _ _ => Ok [mkLink demo_card (Ok (Some "/product/blue-dream-3-5g"))])
         no_detail_pages.

(** The environment at its best: nothing of what it answers raises. *)
Definition session_ok : Session := mkSession (Ok tt) (Ok tt) (Ok tt).

Definition sync_session_ok : SyncSession := mkSyncSession (Ok tt) (Ok tt) (Ok tt).

Definition free_sample_card : Card :=
  mkCard [mkNameLink (Some "Sample Pack") (Some "/product/sample-pack")]
         (Ok "Sample Pack $0.00 3.5g") [Ok (Some "$0.00")] [] [].

Definition size_table : list (string * Q) :=
  [("0.5g", 0.5%Q); ("1g", 1.0%Q); ("2g", 2.0%Q); ("3.5g", 3.5%Q);
   ("7g", 7.0%Q); ("10g", 10.0%Q); ("14g", 14.0%Q); ("28g", 28.0%Q)].

Definition size_vocabulary : list string := map fst size_table.

(** The trace of [k] failed attempts, each followed by its pause. *)
Definition backoff (url : string) (k : nat) : list event :=
  flat_map (fun attempt => [EvGoto url; EvSleep (1.0 * pow2 attempt)]) (seq 0 k).

(** A site whose first three navigations time out. *)
Definition flaky_site : Site :=
  mkSite (fun n _ => if (n <? 3)%nat then Raised "Timeout 30000ms exceeded" else Ok tt)
         (Ok []) (fun _ => false) (fun _ _ _ => NoButton) (fun _ _ => Ok [])
         no_detail_pages.

(** A site that cannot be reached. *)
Definition site_down : Site :=
  mkSite (fun _ _ => Raised "net::ERR_CONNECTION_REFUSED")
         (Ok []) (fun _ => false) (fun _ _ _ => NoButton) (fun _ _ => Ok [])
         no_detail_pages.

Definition goto_attempts (w w' : world) : nat := navs w' - navs w.

(** Store discovery fails: the directory page cannot be reached within
    the attempts of [_safe_page_goto], or its anchors cannot be listed. *)
Definition discovery_fails (config : ScrapingConfig) (site : Site) (w : world) : Prop :=
  (exists e, fst (_safe_page_goto site (dispensaries_url config) w) = Raised e) \/
  (exists e, directory_anchors site = Raised e).

(** A directory page that loads and lists no store. *)
Definition empty_directory : Site :=
  mkSite (fun _ _ => Ok tt)
         (Ok []) (fun _ => false) (fun _ _ _ => NoButton) (fun _ _ => Ok [])
         no_detail_pages.

(** What the specification asks of a run whose discovery failed. *)
Definition run_failed (r : ScrapingResult) : Prop :=
  success r = false /\ products r = [] /\ exists e, error_message r = Some e.

(** The message of the [NameError] of line 202 of [base_scraper.py]. *)
Definition async_playwright_unbound : string :=
  "name 'async_playwright' is not defined".

(** [word] occurs in [text], letter case aside. *)
Definition mentions (word text : string) : Prop :=
  exists pre w suf,
    of_string text = pre ++ w ++ suf /\
    map lower_char w = map lower_char (of_string word).

(** [kw] stands in [text] as a whole word, letter case aside: no word
    character comes right before it or right after it. *)
Definition occurs_as_word (kw text : string) : Prop :=
  exists pre w suf,
    of_string text = pre ++ w ++ suf /\
    map lower_char w = map lower_char (of_string kw) /\
    word_at (rev pre) = false /\ word_at suf = false.

Definition hit (kw text : string) : bool :=
  is_match (search true (strain_word kw) text).

(** A keyword that begins and ends with a word character. *)
Definition wordlike (kw : string) : Prop :=
  word_at (of_string kw) = true /\ word_at (rev (of_string kw)) = true.

(** The reading of the specification: of the keywords that stand in the
    text as whole words, the one whose occurrence starts first. *)
Definition match_offset (f : found) : nat := length (before (m_start f)).

Definition strain_offsets (text : string) : list (nat * string) :=
  omap (fun kw => option_map (fun f => (match_offset f, kw))
                             (search true (strain_word kw) text))
       strain_types.

Definition first_strain_by_position (text : string) : option string :=
  match strain_offsets text with
  | [] => None
  | x :: t =>
      Some (snd (fold_left (fun best y => if (fst y <? fst best)%nat then y else best) t x))
  end.

End Vocabulary.

Section DedupVocabulary.
Variable config : ScrapingConfig.
Variable site : Site.
Variable category_config : CategoryConfig.
Variable store : StoreInfo.

(** What a link has to offer: the record assembled from its card, under
    the key built from its own [href]; nothing when the card gives no
    record or the attribute cannot be read. *)
Definition candidate (link : Link) : option (dedup_key * ProductData) :=
  match extract_product_data_from_card (l_card link) category_config
          (store_name store) (Some (site_context site)) (base_url config) with
  | Some product =>
      match l_href link with
      | Ok href =>
          Some ((store_name store, product_slug href, size_raw product,
                 cat_subcategory category_config), product)
      | Raised _ => None
      end
  | None => None
  end.

(** The candidates whose key was not seen before. *)
Fixpoint first_wins (seen : gset dedup_key) (cands : list (dedup_key * ProductData))
  : list (dedup_key * ProductData) :=
  match cands with
  | [] => []
  | (k, p) :: rest =>
      if bool_decide (k ∈ seen) then first_wins seen rest
      else (k, p) :: first_wins ({[k]} ∪ seen) rest
  end.

(** The record of the first candidate that has key [k]. *)
Definition first_with_key (k : dedup_key) (cands : list (dedup_key * ProductData))
  : option ProductData :=
  option_map snd (find (fun c => bool_decide (fst c = k)) cands).

(** The links without those whose key an earlier link has. *)
Fixpoint without_later_duplicates (seen : gset dedup_key) (links : list Link)
  : list Link :=
  match links with
  | [] => []
  | link :: rest =>
      match candidate link with
      | Some (k, _) =>
          if bool_decide (k ∈ seen) then without_later_duplicates seen rest
          else link :: without_later_duplicates ({[k]} ∪ seen) rest
      | None => link :: without_later_duplicates seen rest
      end
  end.

End DedupVocabulary.

(** Further vocabulary: slugs, traces of retries, the sample run, stores
    and groups. *)

(** No character of the class [p] stands at the head of [s]. *)
Definition word_head_ok (p : ascii -> bool) (s : Str.chars) : Prop :=
  match s with
  | c :: _ => p c = false
  | [] => True
  end.


(** The record assembled from [demo_card]. *)
Definition demo_product : ProductData :=
  Eval vm_compute in
    default (ProductData_new "" "" "" None None None None None None None)
            (extract_product_data_from_card demo_card demo_category "Miami Beach, FL"
               (Some no_detail_pages) "https://www.trulieve.com").

Definition demo_store : StoreInfo :=
  mkStoreInfo "Miami Beach, FL" "https://www.trulieve.com/dispensaries/miami-fl"
              (Some "Miami Beach, FL") "FL".

(** A store that comes from an anchor of the page: its raw link
    points into the directory and it passes the Florida test under its own
    name. *)
Definition store_from_anchor (config : ScrapingConfig) (anchors : list Anchor)
    (s : StoreInfo) : Prop :=
  exists anchor href,
    In anchor anchors /\ a_href anchor = Ok (Some href) /\
    Str.contains "/dispensaries/" href = true /\
    looks_like_florida (Some href) (Some (store_name s)) = true /\
    store_url s = urljoin (base_url config) href.

(** The card with other price elements. *)
Definition with_price_texts (card : Card) (texts : list (outcome (option string))) : Card :=
  mkCard (card_name_links card) (card_inner_text card) texts
         (card_brand_texts card) (card_strain_texts card).

(** [r] is a least element of [xs], and nothing when [xs] is empty. *)
Definition least_of (xs : list Q) (r : option Q) : Prop :=
  match r with
  | None => xs = []
  | Some v => In v xs /\ forall x, In x xs -> (v <= x)%Q
  end.

(** An optional text is 7-bit when it is there. *)
Definition isascii_opt (o : option string) : Prop :=
  match o with
  | Some s => Str.isascii s = true
  | None => True
  end.

(** The text of the strain element of a card, when the card has one, is
    7-bit. *)
Definition strain_element_isascii (card : Card) : Prop :=
  match card_strain_texts card with
  | t :: _ => isascii_opt t
  | [] => True
  end.

(** The category has the key that the coordinator reads. *)
Definition has_subcategory (category : Dict) : Prop :=
  is_Some (category !! "subcategory").



(** A subclass for the examples: one store, and one product in every
    category. *)
Definition fixed_scraper : Scraper :=
  {| extract_store_links := fun w => Some (Ok [demo_store], w);
     scrape_category := fun _ _ w => Some (Ok [demo_product], w) |}.

(** The products of one subcategory, in their order. *)
Definition of_subcategory (k : string) (products : list ProductData) : list ProductData :=
  List.filter (fun p => String.eqb (subcategory p) k) products.

(** The groups with keys [ks] over the products seen so far. *)
Definition groups_of (ks : list string) (seen : list ProductData)
  : list (string * list ProductData) :=
  map (fun k => (k, of_subcategory k seen)) ks.

(* ================================================================== *)
(** * Facts about the matcher *)

Section ReFacts.
Import Str.

Lemma advance_span n st :
  after st = firstn n (after st) ++ after (advance n st) /\
  before (advance n st) = rev (firstn n (after st)) ++ before st /\
  groups (advance n st) = groups st.
Proof.
  revert st. induction n as [|n IH]; intros [bef aft gs]; simpl.
  - auto.
  - destruct aft as [|x t]; simpl; [auto|].
    destruct (IH (Cursor (x :: bef) t gs)) as (Ha & Hb & Hg); simpl in *.
    repeat split.
    + congruence.
    + rewrite Hb, <- app_assoc. reflexivity.
    + exact Hg.
Qed.

(** A match moves the cursor over a piece of the text and leaves the
    rest of it alone. *)
Lemma exec_span ci r st st' :
  In st' (exec ci r st) ->
  exists w, after st = w ++ after st' /\ before st' = rev w ++ before st.
Proof.
  revert st st'.
  induction r as [|c|cls lo hi| |r1 IH1 r2 IH2|r1 IH1 r2 IH2|r1 IH1|n r1 IH1];
    intros st st' Hin; cbn [exec] in Hin.
  - destruct Hin as [<-|[]]. exists []. auto.
  - destruct (after st) as [|x t] eqn:Haft; [contradiction|].
    destruct (chr_eq ci c x); [|contradiction].
    destruct Hin as [<-|[]].
    destruct (advance_span 1 st) as (Ha & Hb & _).
    exists (firstn 1 (after st)). split; [congruence | exact Hb].
  - apply in_map_iff in Hin as (k & <- & _).
    destruct (advance_span k st) as (Ha & Hb & _).
    exists (firstn k (after st)). auto.
  - destruct (at_boundary st); [|contradiction].
    destruct Hin as [<-|[]]. exists []. auto.
  - apply in_flat_map in Hin as (mid & H1 & H2).
    destruct (IH1 _ _ H1) as (w1 & Ha1 & Hb1).
    destruct (IH2 _ _ H2) as (w2 & Ha2 & Hb2).
    exists (w1 ++ w2). split.
    + rewrite Ha1, Ha2, app_assoc. reflexivity.
    + rewrite Hb2, Hb1, rev_app_distr, app_assoc. reflexivity.
  - apply in_app_iff in Hin as [H|H]; eauto.
  - apply in_app_iff in Hin as [H|[<-|[]]]; eauto. exists []. auto.
  - apply in_map_iff in Hin as (st1 & <- & H1). simpl. eauto.
Qed.

Lemma consumed_span st st' w :
  after st = w ++ after st' -> consumed st st' = w.
Proof.
  intros H. unfold consumed. rewrite H at 1. rewrite length_app.
  replace (length w + length (after st') - length (after st')) with (length w) by lia.
  rewrite H. rewrite firstn_app, Nat.sub_diag, firstn_all. simpl.
  apply app_nil_r.
Qed.

(** ** Literals *)

Lemma exec_Lit ci l st st' :
  In st' (exec ci (Lit_chars l) st) <->
  exists w, same_chars ci l w /\ after st = w ++ after st' /\
            before st' = rev w ++ before st /\ groups st' = groups st.
Proof.
  revert st st'. induction l as [|c l IH]; intros st st'; simpl.
  - split.
    + intros [<-|[]]. exists []. repeat split; auto. constructor.
    + intros (w & Hw & Ha & Hb & Hg). inversion Hw; subst. left.
      destruct st, st'; simpl in *; congruence.
  - rewrite in_flat_map. split.
    + intros (mid & H1 & H2).
      destruct (after st) as [|x t] eqn:Haft; [contradiction|].
      destruct (chr_eq ci c x) eqn:Hc; [|contradiction].
      destruct H1 as [<-|[]].
      apply IH in H2 as (w & Hw & Ha & Hb & Hg).
      destruct st as [bef aft gs]; simpl in *; subst aft; simpl in *.
      exists (x :: w). repeat split.
      * constructor; auto.
      * simpl. congruence.
      * simpl. rewrite Hb, <- app_assoc. reflexivity.
      * exact Hg.
    + intros (w & Hw & Ha & Hb & Hg). inversion Hw as [|c' x l' w' Hc Hrest]; subst.
      destruct st as [bef aft gs]; simpl in *; subst aft.
      exists (Cursor (x :: bef) (w' ++ after st') gs). split.
      * simpl. rewrite Hc. left. reflexivity.
      * apply IH. exists w'. simpl. repeat split; auto.
        rewrite Hb, <- app_assoc. reflexivity.
Qed.

(** ** Search *)

Lemma search_at_Some ci r bef aft f :
  search_at ci r bef aft = Some f ->
  exists pre suf,
    aft = pre ++ suf /\
    m_start f = start_of (rev pre ++ bef) suf /\
    exists tl, exec ci r (m_start f) = m_stop f :: tl.
Proof.
  revert bef. induction aft as [|x t IH]; intros bef; simpl.
  - destruct (exec ci r (start_of bef [])) as [|st' tl] eqn:He; [discriminate|].
    intros [= <-]. exists [], []. simpl. eauto.
  - destruct (exec ci r (start_of bef (x :: t))) as [|st' tl] eqn:He.
    + intros H. apply IH in H as (pre & suf & -> & Hs & Htl).
      exists (x :: pre), suf. simpl. rewrite <- app_assoc. eauto.
    + intros [= <-]. exists [], (x :: t). simpl. eauto.
Qed.

Lemma search_at_None ci r bef aft :
  search_at ci r bef aft = None <->
  forall pre suf, aft = pre ++ suf -> exec ci r (start_of (rev pre ++ bef) suf) = [].
Proof.
  revert bef. induction aft as [|x t IH]; intros bef; simpl.
  - destruct (exec ci r (start_of bef [])) as [|st' tl] eqn:He.
    + split; [|reflexivity]. intros _ pre suf H.
      symmetry in H. apply app_eq_nil in H as [-> ->]. exact He.
    + split; [discriminate|]. intros H. specialize (H [] [] eq_refl).
      simpl in H. congruence.
  - destruct (exec ci r (start_of bef (x :: t))) as [|st' tl] eqn:He.
    + rewrite IH. split.
      * intros H pre suf Hsplit. destruct pre as [|y pre]; simpl in *.
        -- subst suf. exact He.
        -- injection Hsplit as <- ->. rewrite <- app_assoc. simpl. auto.
      * intros H pre suf ->. specialize (H (x :: pre) suf eq_refl).
        simpl in H. rewrite <- app_assoc in H. exact H.
    + split; [discriminate|]. intros H. specialize (H [] (x :: t) eq_refl).
      simpl in H. congruence.
Qed.

Lemma finditer_at_head ci r bef aft skip f :
  In f (finditer_at ci r bef aft skip) ->
  exists tl, exec ci r (m_start f) = m_stop f :: tl.
Proof.
  revert bef skip. induction aft as [|x t IH]; intros bef skip; simpl.
  - destruct skip; simpl; [|contradiction].
    destruct (exec ci r (start_of bef [])) as [|st' tl] eqn:He; [contradiction|].
    intros [<-|[]]. simpl. eauto.
  - destruct skip; simpl; [|apply IH].
    destruct (exec ci r (start_of bef (x :: t))) as [|st' tl] eqn:He; [apply IH|].
    intros [<-|H]; [simpl; eauto|]. eapply IH; eauto.
Qed.

End ReFacts.

(* ================================================================== *)
(** * Facts about characters *)

Section CharFacts.
Import Str.

Lemma in_all_ascii (x : ascii) : In x all_ascii.
Proof.
  unfold all_ascii. apply in_map_iff. exists (nat_of_ascii x). split.
  - apply ascii_nat_embedding.
  - apply in_seq. pose proof (nat_ascii_bounded x). lia.
Qed.

(** A property of characters that a table lookup confirms. *)
Lemma forall_ascii (P : ascii -> bool) :
  forallb P all_ascii = true -> forall x, P x = true.
Proof.
  intros H x. rewrite forallb_forall in H. apply H, in_all_ascii.
Qed.

Lemma chr_eq_ci_lower c x :
  chr_eq true c x = true <-> lower_char c = lower_char x.
Proof. unfold chr_eq. apply Ascii.eqb_eq. Qed.

Lemma chr_eq_cs c x : chr_eq false c x = true <-> c = x.
Proof. unfold chr_eq. apply Ascii.eqb_eq. Qed.

Lemma is_word_lower c : is_word (lower_char c) = is_word c.
Proof.
  apply Bool.eqb_prop.
  apply (forall_ascii (fun c => Bool.eqb (is_word (lower_char c)) (is_word c))).
  vm_compute. reflexivity.
Qed.

Lemma lower_of_upper c : is_upper c = true -> is_lower (lower_char c) = true.
Proof.
  intros H.
  pose proof (forall_ascii
    (fun c => implb (is_upper c) (is_lower (lower_char c)))
    ltac:(vm_compute; reflexivity) c) as T.
  cbv beta in T. rewrite H in T. exact T.
Qed.

(** Under [re.I] a word character only matches word characters. *)
Lemma chr_eq_word c x : chr_eq true c x = true -> is_word c = is_word x.
Proof.
  intros H. apply chr_eq_ci_lower in H.
  rewrite <- (is_word_lower c), <- (is_word_lower x). congruence.
Qed.

(** A character that is not a letter only matches itself. *)
Lemma chr_eq_symbol ci c x :
  is_upper c = false -> is_lower c = false -> chr_eq ci c x = true -> x = c.
Proof.
  intros Hu Hl H. destruct ci.
  - apply chr_eq_ci_lower in H. unfold lower_char at 1 in H. rewrite Hu in H.
    destruct (is_upper x) eqn:Hx.
    + apply lower_of_upper in Hx. congruence.
    + unfold lower_char in H. rewrite Hx in H. congruence.
  - apply chr_eq_cs in H. congruence.
Qed.

Lemma lower_char_idem c : lower_char (lower_char c) = lower_char c.
Proof.
  apply Ascii.eqb_eq.
  apply (forall_ascii (fun c => Ascii.eqb (lower_char (lower_char c)) (lower_char c))).
  vm_compute. reflexivity.
Qed.

Lemma same_chars_lower l w :
  same_chars true l w <-> map lower_char l = map lower_char w.
Proof.
  unfold same_chars. split.
  - induction 1 as [|c x l w Hc _ IH]; simpl; [reflexivity|].
    apply chr_eq_ci_lower in Hc. congruence.
  - revert w. induction l as [|c l IH]; intros [|x w] H; simpl in H;
      try discriminate; constructor.
    + apply chr_eq_ci_lower. congruence.
    + apply IH. congruence.
Qed.

Lemma of_to_string (w : chars) : of_string (to_string w) = w.
Proof. apply list_ascii_of_string_of_list_ascii. Qed.

Lemma to_of_string (s : string) : to_string (of_string s) = s.
Proof. apply string_of_list_ascii_of_string. Qed.

Lemma lower_to_string (w : chars) :
  lower (to_string w) = to_string (map lower_char w).
Proof. unfold lower. rewrite of_to_string. reflexivity. Qed.

Lemma lower_idem (s : string) : lower (lower s) = lower s.
Proof.
  unfold lower. rewrite of_to_string, map_map. f_equal.
  apply map_ext. intros c. apply lower_char_idem.
Qed.

Lemma nonempty_of_string s : nonempty s = false <-> s = "".
Proof. destruct s; simpl; split; congruence. Qed.

End CharFacts.

(* ================================================================== *)
(** * Facts about quantifiers, sequences and groups *)

Section ReFacts2.
Import Str.

Lemma in_rep_counts n lo hi avail :
  In n (rep_counts lo hi avail) <->
  lo <= n /\ n <= avail /\ match hi with Some h => n <= h | None => True end.
Proof.
  unfold rep_counts. rewrite <- in_rev, in_seq. destruct hi as [h|]; lia.
Qed.

Lemma run_firstn cls n s :
  n <= run cls s -> Forall (fun c => cls c = true) (firstn n s) /\ length (firstn n s) = n.
Proof.
  revert n. induction s as [|c s IH]; intros n H; simpl in H.
  - assert (n = 0) as -> by lia. simpl. split; [constructor | reflexivity].
  - destruct n as [|n]; simpl; [split; [constructor | reflexivity]|].
    destruct (cls c) eqn:Hc; [|lia].
    destruct (IH n ltac:(lia)) as [HF HL]. split; [constructor; auto | congruence].
Qed.

(** A greedy quantifier moves over [n] characters of the class, for some
    [n] within its bounds. *)
Lemma exec_Rep ci cls lo hi st st' :
  In st' (exec ci (Rep cls lo hi) st) ->
  exists w, after st = w ++ after st' /\ before st' = rev w ++ before st /\
            groups st' = groups st /\
            Forall (fun c => cls c = true) w /\ lo <= length w /\
            match hi with Some h => length w <= h | None => True end.
Proof.
  cbn [exec]. intros Hin. apply in_map_iff in Hin as (n & <- & Hn).
  apply in_rep_counts in Hn as (Hlo & Hav & Hhi).
  destruct (advance_span n st) as (Ha & Hb & Hg).
  destruct (run_firstn cls n (after st) Hav) as [HF HL].
  exists (firstn n (after st)). rewrite HL. auto 10.
Qed.

Lemma exec_Seq ci r1 r2 st st' :
  In st' (exec ci (Seq r1 r2) st) <->
  exists mid, In mid (exec ci r1 st) /\ In st' (exec ci r2 mid).
Proof. cbn [exec]. apply in_flat_map. Qed.

Lemma exec_WordB ci st st' :
  In st' (exec ci WordB st) <-> st' = st /\ at_boundary st = true.
Proof.
  cbn [exec]. destruct (at_boundary st); simpl; intuition congruence.
Qed.

Lemma exec_Chr ci c st st' :
  In st' (exec ci (Chr c) st) ->
  exists x, chr_eq ci c x = true /\ after st = x :: after st' /\
            before st' = x :: before st /\ groups st' = groups st.
Proof.
  cbn [exec]. destruct st as [bef [|x t] gs]; simpl; [contradiction|].
  destruct (chr_eq ci c x) eqn:Hc; [|contradiction].
  intros [<-|[]]. exists x. simpl. auto.
Qed.

Lemma exec_keeps_group ci n r st st' :
  sets_group n r = false -> In st' (exec ci r st) ->
  groups st' !! n = groups st !! n.
Proof.
  revert st st'.
  induction r as [|c|cls lo hi| |r1 IH1 r2 IH2|r1 IH1 r2 IH2|r1 IH1|k r1 IH1];
    intros st st' Hn Hin; simpl in Hn.
  - destruct Hin as [<-|[]]. reflexivity.
  - apply exec_Chr in Hin as (x & _ & _ & _ & ->). reflexivity.
  - apply exec_Rep in Hin as (w & _ & _ & -> & _). reflexivity.
  - apply exec_WordB in Hin as [-> _]. reflexivity.
  - apply orb_false_iff in Hn as [Hn1 Hn2].
    apply exec_Seq in Hin as (mid & H1 & H2).
    rewrite (IH2 _ _ Hn2 H2). eauto.
  - apply orb_false_iff in Hn as [Hn1 Hn2].
    cbn [exec] in Hin. apply in_app_iff in Hin as [H|H]; eauto.
  - cbn [exec] in Hin. apply in_app_iff in Hin as [H|[<-|[]]]; eauto.
  - apply orb_false_iff in Hn as [Hk Hn1]. apply Nat.eqb_neq in Hk.
    cbn [exec] in Hin. apply in_map_iff in Hin as (st1 & <- & H1).
    simpl. rewrite lookup_insert_ne by exact Hk. eauto.
Qed.

(** A capturing group records the text its body moved over. *)
Lemma exec_Group ci n r st st' :
  In st' (exec ci (Group n r) st) ->
  exists st1 w, In st1 (exec ci r st) /\ after st = w ++ after st1 /\
                after st' = after st1 /\ before st' = before st1 /\
                groups st' !! n = Some w.
Proof.
  cbn [exec]. intros Hin. apply in_map_iff in Hin as (st1 & <- & H1).
  destruct (exec_span _ _ _ _ H1) as (w & Ha & Hb).
  exists st1, w. simpl. rewrite lookup_insert_eq.
  rewrite (consumed_span _ _ _ Ha). auto.
Qed.

End ReFacts2.

(* ================================================================== *)
(** * Decimal literals *)

Section Decimals.
Import Str.

Lemma span_digits_app ds rest :
  Forall (fun c => is_digit c = true) ds ->
  match rest with c :: _ => is_digit c = false | [] => True end ->
  Num.span_digits (ds ++ rest) = (ds, rest).
Proof.
  intros Hds Hrest. induction Hds as [|c ds Hc _ IH]; simpl.
  - destruct rest as [|c t]; simpl; [reflexivity|]. rewrite Hrest. reflexivity.
  - rewrite Hc, IH. reflexivity.
Qed.

Lemma span_digits_all ds :
  Forall (fun c => is_digit c = true) ds -> Num.span_digits ds = (ds, []).
Proof.
  intros H. rewrite <- (app_nil_r ds) at 1. apply span_digits_app; auto.
Qed.

(** [float] accepts every decimal literal. *)
Lemma py_float_decimal w : decimal_literal w -> exists v, Num.py_float w = Some v.
Proof.
  intros (ip & [Hne Hip] & [->|(fp & [Hfne Hfp] & ->)]); unfold Num.py_float.
  - rewrite (span_digits_all _ Hip). destruct ip; [congruence|]. eauto.
  - rewrite (span_digits_app ip ("."%char :: fp) Hip eq_refl).
    destruct ip; [congruence|]. simpl.
    rewrite (span_digits_all _ Hfp). destruct fp; [congruence|]. eauto.
Qed.

(** [[0-9]+(?:\.[0-9]{lo,hi})?] moves over a decimal literal. *)
Lemma exec_decimal ci lo hi st st' :
  1 <= lo ->
  In st' (exec ci (plus is_digit +++ Opt (Chr "." +++ Rep is_digit lo hi))%re st) ->
  exists w, decimal_literal w /\ after st = w ++ after st' /\
            groups st' = groups st.
Proof.
  intros Hlo Hin. apply exec_Seq in Hin as (st1 & H1 & H2).
  apply exec_Rep in H1 as (ip & Ha1 & _ & Hg1 & Hip & Hlen & _).
  assert (digits ip) as Hdig.
  { split; [|exact Hip]. intros ->. simpl in Hlen. lia. }
  cbn [exec] in H2. apply in_app_iff in H2 as [H2|[<-|[]]].
  - change (In st' (exec ci (Chr "." +++ Rep is_digit lo hi)%re st1)) in H2.
    apply exec_Seq in H2 as (st2 & Hdot & Hfrac).
    apply exec_Chr in Hdot as (x & Hx & Ha2 & _ & Hg2).
    apply chr_eq_symbol in Hx; [subst x | reflexivity | reflexivity].
    apply exec_Rep in Hfrac as (fp & Ha3 & _ & Hg3 & Hfp & Hflen & _).
    exists (ip ++ "."%char :: fp). split; [|split].
    + exists ip. split; [exact Hdig|]. right. exists fp. split; [|reflexivity].
      split; [|exact Hfp]. intros ->. simpl in Hflen. lia.
    + rewrite Ha1, Ha2, Ha3, <- app_assoc. reflexivity.
    + congruence.
  - exists ip. split; [|split; [exact Ha1 | exact Hg1]].
    exists ip. split; [exact Hdig|]. left. reflexivity.
Qed.

Lemma exec_number ci st st' :
  In st' (exec ci number st) ->
  exists w, decimal_literal w /\ after st = w ++ after st' /\
            groups st' = groups st.
Proof. apply exec_decimal. lia. Qed.

(** A captured decimal literal. *)
Lemma exec_Group_decimal ci n lo hi st st' :
  1 <= lo ->
  In st' (exec ci (Group n (plus is_digit +++ Opt (Chr "." +++ Rep is_digit lo hi)))%re st) ->
  exists g, groups st' !! n = Some g /\ decimal_literal g.
Proof.
  intros Hlo Hin. apply exec_Group in Hin as (st1 & w & H1 & Ha & _ & _ & Hg).
  apply exec_decimal in H1 as (w' & Hdec & Ha' & _); [|exact Hlo].
  assert (w = w') as -> by (rewrite Ha' in Ha; apply app_inv_tail in Ha; congruence).
  eauto.
Qed.

End Decimals.

(* ================================================================== *)
(** * The run result *)

Section RunResult.

(** Line 202 raises: [base_scraper.py] does not bind the name. *)
Lemma async_playwright_NameError :
  global_name base_scraper_names "async_playwright" = Raised async_playwright_unbound.
Proof. reflexivity. Qed.

(** Every run of [BaseScraper.scrape_all_categories] returns, and returns
    the result of the handler of line 246: no page is visited, nothing is
    counted.  Off Windows, or when the Windows branch goes through, the
    error is the [NameError]. *)
Lemma scrape_all_categories_fails `{Scraper} config session w :
  exists e,
    scrape_all_categories config session w
    = Some (ScrapingResult_new false [] (Some e) 0 0, w) /\
    (platform_fix session = Ok tt -> e = async_playwright_unbound).
Proof.
  unfold scrape_all_categories, run_workflow.
  destruct (platform_fix session) as [[]|e].
  - rewrite async_playwright_NameError. exists async_playwright_unbound.
    split; reflexivity.
  - exists e. split; [reflexivity | discriminate].
Qed.

(** The constructor leaves the count at its default, whatever the list. *)
Lemma result_of_total tried : total_products (fst (result_of tried)) = 0.
Proof. destruct tried as [[u|e] st]; reflexivity. Qed.

(** In [BaseScraperSync], whose block is entered, the count of a result
    is 0 as well, also when its list is not empty. *)
Lemma Sync_scrape_all_categories_total `{Scraper} config base session w r w' :
  Sync_scrape_all_categories config base session w = Some (r, w') ->
  total_products r = 0.
Proof.
  unfold Sync_scrape_all_categories.
  destruct (Sync_run_workflow config base session (mkLocals w [] 0 0)) as [tried|];
    simpl; [|discriminate].
  intros [= E]. rewrite <- (result_of_total tried), E. reflexivity.
Qed.

Lemma Sync_total_products_differs :
  exists r w',
    @Sync_scrape_all_categories fixed_scraper demo_config "https://www.trulieve.com"
      sync_session_ok world0 = Some (r, w') /\
    success r = true /\ length (products r) = 1 /\ total_products r = 0.
Proof. eexists _, _. split; [vm_compute; reflexivity|]. repeat split. Qed.

(** The hook would establish the invariant, were it called. *)
Lemma post_init_total r :
  total_products (ScrapingResult_post_init r) = length (products (ScrapingResult_post_init r)).
Proof. reflexivity. Qed.


End RunResult.

(* ================================================================== *)
(** * Price per gram *)

Section PricePerGram.

(** With a price other than zero and positive grams the quotient is
    stored, rounded to hundredths. *)
Lemma calculate_price_per_g_some p pr g :
  price p = Some pr -> grams p = Some g ->
  ~ (pr == 0)%Q -> (0 < g)%Q ->
  price_per_g (calculate_price_per_g p) = Some (Num.round2 (pr / g)).
Proof.
  intros Hp Hg Hpr Hpos. unfold calculate_price_per_g, truthy. rewrite Hp, Hg.
  assert (Num.nonzero pr = true) as ->.
  { unfold Num.nonzero. destruct (Qeq_bool pr 0) eqn:E; [|reflexivity].
    apply Qeq_bool_eq in E. contradiction. }
  assert (Num.nonzero g = true) as ->.
  { unfold Num.nonzero. destruct (Qeq_bool g 0) eqn:E; [|reflexivity].
    apply Qeq_bool_eq in E. rewrite E in Hpos. exfalso. revert Hpos. apply Qlt_irrefl. }
  assert (Num.Qlt_bool 0 g = true) as ->.
  { unfold Num.Qlt_bool. destruct (Qle_bool g 0) eqn:E; [|reflexivity].
    apply Qle_bool_iff in E. exfalso. eapply Qlt_irrefl, Qlt_le_trans; eauto. }
  reflexivity.
Qed.

(** Without a price or without grams nothing is stored. *)
Lemma calculate_price_per_g_missing p :
  price p = None \/ grams p = None ->
  calculate_price_per_g p = p.
Proof.
  unfold calculate_price_per_g. intros [H|H]; rewrite H; [|destruct (price p)];
    reflexivity.
Qed.

(** C2.  A card that shows "$0.00" and "3.5g" is assembled into a record
    whose price is 0 and whose weight is 3.5, both present, and whose
    price per gram is absent, where [round(0 / 3.5, 2)] is 0. *)
Theorem C2_zero_price_leaves_price_per_g_absent :
  exists p,
    extract_product_data_from_card free_sample_card demo_category
      "Miami Beach, FL" None "https://www.trulieve.com" = Some p /\
    price p = Some 0.00%Q /\ grams p = Some 3.5%Q /\
    price_per_g p = None /\
    (Num.round2 (0.00 / 3.5) == 0)%Q.
Proof. eexists. vm_compute. repeat split; reflexivity. Qed.

End PricePerGram.

(* ================================================================== *)
(** * Size labels *)

Section SizeLabels.

Lemma lower_nonempty s label :
  Str.lower s = label -> label <> "" -> Str.nonempty s = true.
Proof. intros <- H. destruct s; [contradiction | reflexivity]. Qed.

Lemma grams_of_label s label g :
  In (label, g) size_table -> Str.lower s = label ->
  grams_from_size (Some s) = Some g.
Proof.
  intros Hin Hl. unfold grams_from_size.
  assert (label <> "") as Hne.
  { simpl in Hin. intuition congruence. }
  rewrite (lower_nonempty _ _ Hl Hne), Hl.
  simpl in Hin.
  repeat (destruct Hin as [[= <- <-]|Hin]; [vm_compute; reflexivity|]).
  contradiction.
Qed.

Lemma grams_of_other s :
  ~ In (Str.lower s) size_vocabulary -> grams_from_size (Some s) = None.
Proof.
  intros Hn. unfold grams_from_size. destruct (Str.nonempty s); [|reflexivity].
  apply not_elem_of_list_to_map_1. rewrite list_elem_of_In. exact Hn.
Qed.

(** C8.  A string whose lower-case form is a label of the vocabulary is
    mapped to the grams of that label; a string whose lower-case form is
    no label, the empty string and [None] are mapped to [None]. *)
Theorem C8_grams_from_size_vocabulary :
  (forall s label g, In (label, g) size_table -> Str.lower s = label ->
                     grams_from_size (Some s) = Some g) /\
  (forall s, ~ In (Str.lower s) size_vocabulary -> grams_from_size (Some s) = None) /\
  grams_from_size None = None /\
  grams_from_size (Some "") = None /\
  grams_from_size (Some "3.5g") = Some 3.5%Q /\
  grams_from_size (Some "7G") = Some 7.0%Q /\
  grams_from_size (Some "bogus") = None.
Proof.
  split; [exact grams_of_label|]. split; [exact grams_of_other|].
  repeat split; vm_compute; reflexivity.
Qed.

End SizeLabels.

(* ================================================================== *)
(** * Navigation with retries *)

Section Navigation.

(** The claim as the specification words it: no more than three
    attempts, so that three failures in a row are final. *)
Lemma C4_counterexample :
  let r := _safe_page_goto flaky_site "https://www.trulieve.com/dispensaries" world0 in
  (forall i, i < 3 ->
     goto_result flaky_site i "https://www.trulieve.com/dispensaries"
     = Raised "Timeout 30000ms exceeded") /\
  fst r = Ok tt /\
  goto_attempts world0 (snd r) = 4 /\
  ~ goto_attempts world0 (snd r) <= 3.
Proof.
  split; [|vm_compute; repeat split; lia].
  intros i Hi. simpl.
  destruct i as [|[|[|i]]]; try reflexivity. lia.
Qed.

(** Closes the cases of the analysis below: the bound, the failed
    attempts, the count and the trace. *)
Ltac goto_case :=
  repeat match goal with
         | |- _ /\ _ => split
         | |- forall i, i < _ -> _ =>
             let i := fresh "i" in
             let Hi := fresh "Hi" in
             intros i Hi;
             do 3 (destruct i as [|i];
                   [try lia; rewrite <- ?plus_n_Sm, ?Nat.add_0_r; eauto|]);
             lia
         | |- _ <= _ => lia
         | |- _ = _ :> nat => lia
         | |- _ = _ :> list event => rewrite <- ?app_assoc; reflexivity
         | |- _ = _ => reflexivity
         end.

(** C4 (amended).  [_safe_page_goto] makes at most four attempts, the
    first and [max_retries = 3] more.  Let [k] be the number of attempts
    that fail before it stops: each of them but the fourth is followed by
    a pause of [1.0 * 2^attempt] seconds, attempts counted from 0; when
    attempt [k] succeeds the rate-limit pause follows and the call
    returns; when the fourth attempt fails its error is raised, with no
    pause after it. *)
Theorem C4_goto_four_attempts site url w :
  let res := fst (_safe_page_goto site url w) in
  let w' := snd (_safe_page_goto site url w) in
  exists k, k <= 3 /\
    (forall i, i < k -> exists e, goto_result site (navs w + i) url = Raised e) /\
    goto_attempts w w' = k + 1 /\
    match goto_result site (navs w + k) url with
    | Ok _ => res = Ok tt /\
              trace w' = trace w ++ backoff url k ++ [EvGoto url; EvRateLimit]
    | Raised e => k = 3 /\ res = Raised e /\
                  trace w' = trace w ++ backoff url 3 ++ [EvGoto url]
    end.
Proof.
  destruct w as [n tr].
  unfold _safe_page_goto, bind, _retry_operation, goto_attempts. simpl.
  assert (forall i, n + S i = S (n + i)) as HS by (intros; lia).
  destruct (goto_result site n url) as [[]|e0] eqn:H0.
  { exists 0. simpl. rewrite Nat.add_0_r, H0. goto_case. }
  destruct (goto_result site (S n) url) as [[]|e1] eqn:H1.
  { exists 1. simpl. rewrite !HS, Nat.add_0_r, H1. goto_case. }
  destruct (goto_result site (S (S n)) url) as [[]|e2] eqn:H2.
  { exists 2. simpl. rewrite !HS, Nat.add_0_r, H2. goto_case. }
  exists 3. simpl. rewrite !HS, Nat.add_0_r.
  destruct (goto_result site (S (S (S n))) url) as [[]|e3] eqn:H3;
    unfold _apply_rate_limit, emit; simpl; goto_case.
Qed.

End Navigation.

(* ================================================================== *)
(** * Failure of a run *)

Section RunFailure.

(** [TrulieveScraper.extract_store_links] raises nothing. *)
Lemma Trulieve_extract_store_links_total config site w :
  exists stores, fst (Trulieve_extract_store_links config site w) = Ok stores.
Proof.
  unfold Trulieve_extract_store_links.
  destruct (_safe_page_goto site (dispensaries_url config) w) as [[u|e] w'];
    [destruct (directory_anchors site)|]; simpl; eauto.
Qed.

(** A failed discovery is an empty discovery: the method catches the
    error and returns no store. *)
Lemma Trulieve_discovery_failure_is_empty config site w :
  discovery_fails config site w ->
  fst (Trulieve_extract_store_links config site w) = Ok [].
Proof.
  unfold discovery_fails, Trulieve_extract_store_links.
  destruct (_safe_page_goto site (dispensaries_url config) w) as [[u|e] w'];
    simpl; intros [[e' H]|[e' H]]; try discriminate; try reflexivity.
  rewrite H. reflexivity.
Qed.

(** Every run is reported as failed, whatever the site and the scraper:
    so is a run whose discovery would fail, and so is a run whose
    discovery would find no store. *)
Lemma scrape_all_categories_run_failed `{Scraper} config session w :
  exists r,
    scrape_all_categories config session w = Some (r, w) /\
    run_failed r /\ stores_scraped r = 0 /\ categories_scraped r = 0.
Proof.
  destruct (scrape_all_categories_fails config session w) as (e & -> & _).
  eexists. split; [reflexivity|]. unfold run_failed. simpl. eauto 10.
Qed.

(** C3.  At a site that cannot be reached, discovery fails and the run is
    reported as failed, with no product and an error message.  At a site
    whose directory loads and lists no store, discovery succeeds with zero
    stores, and the run is reported in the very same way: [success] is
    false and the message is that of the [NameError] of line 202, where
    the claim has [success = true]. *)
Theorem C3_zero_store_run_fails :
  let run site :=
    @scrape_all_categories (TrulieveScraper 10 default_config site)
      default_config session_ok world0 in
  discovery_fails default_config site_down world0 /\
  fst (Trulieve_extract_store_links default_config empty_directory world0) = Ok [] /\
  run site_down
  = Some (mkScrapingResult false [] (Some async_playwright_unbound) 0 0 0, world0) /\
  run empty_directory = run site_down.
Proof.
  cbv zeta. split; [left; eexists; vm_compute; reflexivity|].
  split; [vm_compute; reflexivity|].
  split; reflexivity.
Qed.

End RunFailure.

(* ================================================================== *)
(** * Price *)

Section Price.
Import Str.

Lemma fold_min_spec t x :
  let best := fold_left (fun best y => if Num.Qlt_bool y best then y else best) t x in
  In best (x :: t) /\ forall y, In y (x :: t) -> (best <= y)%Q.
Proof.
  revert x. induction t as [|z t IH]; intros x; simpl.
  - split; [auto|]. intros y [<-|[]]. apply Qle_refl.
  - destruct (IH (if Num.Qlt_bool z x then z else x)) as [Hin Hle].
    split.
    + destruct Hin as [Hin|Hin]; [|auto].
      rewrite <- Hin. destruct (Num.Qlt_bool z x); auto.
    + intros y Hy.
      assert ((if Num.Qlt_bool z x then z else x) <= x /\
              (if Num.Qlt_bool z x then z else x) <= z)%Q as [Hx Hz].
      { unfold Num.Qlt_bool. destruct (Qle_bool x z) eqn:E; simpl.
        - apply Qle_bool_iff in E. split; [apply Qle_refl | exact E].
        - split; [|apply Qle_refl].
          destruct (Qlt_le_dec z x) as [Hlt|Hge]; [apply Qlt_le_weak, Hlt|].
          apply Qle_bool_iff in Hge. congruence. }
      destruct Hy as [<-|[<-|Hy]].
      * eapply Qle_trans; [apply Hle; left; reflexivity | exact Hx].
      * eapply Qle_trans; [apply Hle; left; reflexivity | exact Hz].
      * apply Hle. right. exact Hy.
Qed.

(** [min] returns a least element of a list that is not empty. *)
Lemma py_min_spec xs :
  xs <> [] ->
  exists v, Num.py_min xs = Some v /\ In v xs /\ forall x, In x xs -> (v <= x)%Q.
Proof.
  destruct xs as [|x t]; [congruence|]. intros _. simpl.
  eexists. split; [reflexivity|]. apply fold_min_spec.
Qed.

(** Every match of [PRICE_RE] captures a decimal literal. *)
Lemma PRICE_RE_group st st' :
  In st' (exec false PRICE_RE st) ->
  exists g, groups st' !! 1 = Some g /\ decimal_literal g.
Proof.
  unfold PRICE_RE. intros H.
  apply exec_Seq in H as (st1 & _ & H).
  apply exec_Seq in H as (st2 & _ & H).
  eapply exec_Group_decimal; [|exact H]. lia.
Qed.

Lemma found_price blob f :
  In f (finditer false PRICE_RE blob) ->
  exists v, group 1 f ≫= Num.py_float = Some v.
Proof.
  intros Hin. apply finditer_at_head in Hin as (tl & He).
  destruct (PRICE_RE_group (m_start f) (m_stop f)) as (g & Hg & Hdec).
  { rewrite He. left. reflexivity. }
  unfold group. rewrite Hg. simpl. apply py_float_decimal, Hdec.
Qed.

Lemma omap_all_some {A B} (f : A -> option B) (l : list A) :
  (forall a, In a l -> exists b, f a = Some b) ->
  length (omap f l) = length l.
Proof.
  induction l as [|a l IH]; intros H; simpl; [reflexivity|].
  destruct (H a (or_introl eq_refl)) as [b ->]. simpl.
  f_equal. apply IH. intros a' Ha'. apply H. right. exact Ha'.
Qed.

(** Every [$amount] token contributes a number. *)
Lemma matched_prices_length blob :
  length (matched_prices blob) = length (finditer false PRICE_RE blob).
Proof. apply omap_all_some. intros f. apply found_price. Qed.

(** The price of a blob is a least element of its matched numbers. *)
Lemma price_from_blob_least blob :
  least_of (matched_prices blob) (price_from_blob blob).
Proof.
  unfold price_from_blob.
  destruct (matched_prices blob) as [|x t]; [reflexivity|].
  simpl. apply fold_min_spec.
Qed.

(** Without a price element that holds a dollar sign, the blob is the text
    of the card. *)
Lemma extract_price_from_card_text card blob :
  price_texts card = [] -> card_inner_text card = Ok blob ->
  extract_price_from_card card = price_from_blob blob.
Proof.
  intros Ht Hc. unfold extract_price_from_card. rewrite Ht, Hc.
  destruct blob; reflexivity.
Qed.

(** C6.  The price extractors return the minimum of the numbers matched in
    their blob, and nothing exactly when no number is matched: for a card,
    the blob is its text when none of its first four price elements holds
    a dollar sign, and those elements joined by spaces otherwise; for a
    detail page it is the text of the body.  Every match of [PRICE_RE]
    contributes a number.  A card that reads "was $30.00 now $25.50"
    yields 25.50. *)
Theorem C6_price_is_minimum :
  (forall card blob,
     price_texts card = [] -> card_inner_text card = Ok blob ->
     least_of (matched_prices blob) (extract_price_from_card card)) /\
  (forall card,
     price_texts card <> [] ->
     least_of (matched_prices (Str.join " " (price_texts card)))
              (extract_price_from_card card)) /\
  (forall context url blob,
     Str.nonempty url = true -> pdp_body_text context url = Ok blob ->
     least_of (matched_prices blob) (extract_price_from_pdp context url)) /\
  (forall blob,
     length (matched_prices blob) = length (finditer false PRICE_RE blob)) /\
  matched_prices "was $30.00 now $25.50" = [30.00%Q; 25.50%Q] /\
  extract_price_from_card (mkCard [] (Ok "was $30.00 now $25.50") [] [] [])
  = Some 25.50%Q /\
  extract_price_from_card
    (mkCard [] (Ok "") [Ok (Some "was $30.00"); Ok (Some "now $25.50")] [] [])
  = Some 25.50%Q.
Proof.
  split; [|split; [|split; [|split; [|repeat split; vm_compute; reflexivity]]]].
  - intros card blob Ht Hc. rewrite (extract_price_from_card_text card blob Ht Hc).
    apply price_from_blob_least.
  - intros card Ht. unfold extract_price_from_card.
    destruct (price_texts card) as [|t ts]; [congruence|]. apply price_from_blob_least.
  - intros context url blob Hu Hb. unfold extract_price_from_pdp. rewrite Hu, Hb.
    apply price_from_blob_least.
  - apply matched_prices_length.
Qed.

End Price.

(* ================================================================== *)
(** * Potency *)

Section Potency.
Import Str.

(** A pattern that starts with [\bWORD] only matches where the word is. *)
Lemma search_word_mentions word r text f :
  search true (WordB +++ Lit word +++ r)%re text = Some f -> mentions word text.
Proof.
  unfold search. intros H.
  apply search_at_Some in H as (pre & suf & Hsplit & Hs & tl & He).
  assert (In (m_stop f) (exec true (WordB +++ Lit word +++ r)%re (m_start f))) as Hin
      by (rewrite He; left; reflexivity).
  apply exec_Seq in Hin as (st1 & Hb & Hin). apply exec_WordB in Hb as [-> _].
  apply exec_Seq in Hin as (st2 & Hl & Hin).
  apply exec_Lit in Hl as (w & Hw & Ha & _).
  apply same_chars_lower in Hw.
  rewrite Hs in Ha. simpl in Ha.
  exists pre, w, (after st2). split; [congruence | congruence].
Qed.

Lemma THC_RANGE_RE_group st st' :
  In st' (exec true THC_RANGE_RE st) ->
  exists g, groups st' !! 1 = Some g /\ decimal_literal g.
Proof.
  unfold THC_RANGE_RE. intros H.
  apply exec_Seq in H as (st1 & _ & H).
  apply exec_Seq in H as (st2 & _ & H).
  apply exec_Seq in H as (st3 & _ & H).
  apply exec_Seq in H as (st4 & _ & H).
  apply exec_Seq in H as (st5 & Hg & H).
  apply exec_Group_decimal in Hg as (g & Hg & Hdec); [|lia].
  exists g. split; [|exact Hdec].
  rewrite <- Hg. eapply exec_keeps_group; [|exact H]. reflexivity.
Qed.

Lemma THC_SINGLE_RE_group st st' :
  In st' (exec true THC_SINGLE_RE st) ->
  exists g, groups st' !! 1 = Some g /\ decimal_literal g.
Proof.
  unfold THC_SINGLE_RE. intros H.
  apply exec_Seq in H as (st1 & _ & H).
  apply exec_Seq in H as (st2 & _ & H).
  apply exec_Seq in H as (st3 & _ & H).
  apply exec_Seq in H as (st4 & _ & H).
  apply exec_Seq in H as (st5 & Hg & H).
  apply exec_Group_decimal in Hg as (g & Hg & Hdec); [|lia].
  exists g. split; [|exact Hdec].
  rewrite <- Hg. eapply exec_keeps_group; [|exact H]. reflexivity.
Qed.

Lemma search_group ci r text f :
  (forall st st', In st' (exec ci r st) ->
                  exists g, groups st' !! 1 = Some g /\ decimal_literal g) ->
  search ci r text = Some f ->
  exists g v, group 1 f = Some g /\ Num.py_float g = Some v.
Proof.
  intros Hr H. apply search_at_Some in H as (_ & _ & _ & _ & tl & He).
  destruct (Hr (m_start f) (m_stop f)) as (g & Hg & Hdec).
  { rewrite He. left. reflexivity. }
  destruct (py_float_decimal g Hdec) as [v Hv]. exists g, v. auto.
Qed.

Lemma mentions_nonempty word text :
  word <> "" -> mentions word text -> nonempty text = true.
Proof.
  intros Hw (pre & w & suf & Hsplit & Hl). destruct text; [|reflexivity].
  simpl in Hsplit. symmetry in Hsplit.
  apply app_eq_nil in Hsplit as [_ Hsplit]. apply app_eq_nil in Hsplit as [-> _].
  destruct word; [congruence | discriminate].
Qed.

(** C7.  When the range pattern matches, the potency is the first number
    of the range; when it does not and the single-value pattern matches,
    the potency is the number of that match; a text that does not
    mention THC has no potency.  "THC: 18.5% - 22.0%" yields 18.5, which
    is neither 22.0 nor the mean 20.25, and "THC 15%" yields 15. *)
Theorem C7_thc_first_value :
  (forall text f,
     search true THC_RANGE_RE text = Some f ->
     exists g v, group 1 f = Some g /\ Num.py_float g = Some v /\
                 extract_thc_from_text text = Some v) /\
  (forall text f,
     search true THC_RANGE_RE text = None ->
     search true THC_SINGLE_RE text = Some f ->
     exists g v, group 1 f = Some g /\ Num.py_float g = Some v /\
                 extract_thc_from_text text = Some v) /\
  (forall text, ~ mentions "THC" text -> extract_thc_from_text text = None) /\
  extract_thc_from_text "THC: 18.5% - 22.0%" = Some 18.5%Q /\
  option_map (fun f => (group 1 f, group 2 f))
             (search true THC_RANGE_RE "THC: 18.5% - 22.0%")
    = Some (Some (of_string "18.5"), Some (of_string "22.0")) /\
  extract_thc_from_text "THC 15%" = Some 15%Q /\
  extract_thc_from_text "No potency listed" = None.
Proof.
  split; [|split; [|split; [|repeat split; vm_compute; reflexivity]]].
  - intros text f H.
    destruct (search_group _ _ _ _ THC_RANGE_RE_group H) as (g & v & Hg & Hv).
    exists g, v. split; [exact Hg|]. split; [exact Hv|].
    unfold extract_thc_from_text.
    rewrite (mentions_nonempty "THC" text ltac:(discriminate)
               (search_word_mentions _ _ _ _ H)).
    rewrite H, Hg. simpl. rewrite Hv. reflexivity.
  - intros text f Hr H.
    destruct (search_group _ _ _ _ THC_SINGLE_RE_group H) as (g & v & Hg & Hv).
    exists g, v. split; [exact Hg|]. split; [exact Hv|].
    unfold extract_thc_from_text.
    rewrite (mentions_nonempty "THC" text ltac:(discriminate)
               (search_word_mentions _ _ _ _ H)).
    rewrite Hr, H, Hg. simpl. exact Hv.
  - intros text Hn. unfold extract_thc_from_text.
    destruct (nonempty text); [|reflexivity].
    destruct (search true THC_RANGE_RE text) as [f|] eqn:Hr.
    { exfalso. apply Hn. eapply search_word_mentions. exact Hr. }
    destruct (search true THC_SINGLE_RE text) as [f|] eqn:Hs; [|reflexivity].
    exfalso. apply Hn. eapply search_word_mentions. exact Hs.
Qed.

End Potency.

(* ================================================================== *)
(** * Size *)

Section Size.
Import Str.

(** Every match of [SIZE_RE] captures a label of the vocabulary, letter
    case aside. *)
Lemma SIZE_RE_group st st' :
  In st' (exec true SIZE_RE st) ->
  exists g label, groups st' !! 1 = Some g /\ In label size_vocabulary /\
                  same_chars true (of_string label) g.
Proof.
  unfold SIZE_RE. intros H.
  apply exec_Seq in H as (st1 & Hb & H). apply exec_WordB in Hb as [-> _].
  apply exec_Seq in H as (st2 & Hg & H). apply exec_WordB in H as [-> _].
  apply exec_Group in Hg as (st3 & w & Hin & Ha & _ & _ & Hg).
  exists w. cbn [exec] in Hin.
  repeat (apply in_app_iff in Hin as [Hin|Hin];
          [apply exec_Lit in Hin as (w' & Hw & Ha' & _);
           assert (w = w') as -> by (rewrite Ha' in Ha; apply app_inv_tail in Ha; congruence);
           eexists; split; [exact Hg|]; split; [|exact Hw]; simpl; auto 10 |]).
  apply exec_Lit in Hin as (w' & Hw & Ha' & _).
  assert (w = w') as -> by (rewrite Ha' in Ha; apply app_inv_tail in Ha; congruence).
  eexists; split; [exact Hg|]; split; [|exact Hw]; simpl; auto 10.
Qed.

Lemma label_lower label :
  In label size_vocabulary -> map lower_char (of_string label) = of_string label.
Proof.
  simpl. intros H.
  repeat (destruct H as [<-|H]; [vm_compute; reflexivity|]). contradiction.
Qed.

Lemma label_grams label :
  In label size_vocabulary ->
  exists g, In (label, g) size_table /\ (0 < g)%Q.
Proof.
  simpl. intros H.
  repeat (destruct H as [<-|H];
          [eexists; split; [simpl; eauto 10 | reflexivity]|]).
  contradiction.
Qed.

(** What [extract_size_from_text] returns is a label. *)
Lemma extract_size_label text s :
  extract_size_from_text text = Some s -> In s size_vocabulary.
Proof.
  unfold extract_size_from_text. destruct (nonempty text); [|discriminate].
  destruct (search true SIZE_RE text) as [f|] eqn:Hs; [|discriminate].
  apply search_at_Some in Hs as (_ & _ & _ & _ & tl & He).
  destruct (SIZE_RE_group (m_start f) (m_stop f)) as (g & label & Hg & Hl & Hw).
  { rewrite He. left. reflexivity. }
  unfold group. rewrite Hg. simpl. intros [= <-].
  apply same_chars_lower in Hw. rewrite label_lower in Hw by exact Hl.
  rewrite lower_to_string, <- Hw, to_of_string. exact Hl.
Qed.

Lemma calculate_price_per_g_fields p :
  size_raw (calculate_price_per_g p) = size_raw p /\
  grams (calculate_price_per_g p) = grams p /\
  price (calculate_price_per_g p) = price p.
Proof.
  unfold calculate_price_per_g.
  destruct (price p) as [pr|] eqn:Hp, (grams p) as [g|] eqn:Hg;
    try (rewrite ?Hp, ?Hg; auto).
  destruct (_ && _); simpl; rewrite ?Hp, ?Hg; auto.
Qed.

(** The size and the weight of an assembled record come from the text of
    the card. *)
Lemma assembled_size_grams card category_config store_name context base_url p :
  extract_product_data_from_card card category_config store_name context base_url
  = Some p ->
  exists card_text,
    size_raw p = extract_size_from_text card_text /\
    grams p = grams_from_size (extract_size_from_text card_text).
Proof.
  unfold extract_product_data_from_card.
  destruct (card_name_links card) as [|name_link ?]; [discriminate|].
  destruct (link_text name_link) as [raw|]; [|discriminate].
  destruct (_ && _); [|discriminate].
  destruct (card_inner_text card) as [card_text|]; [|discriminate].
  intros [= <-]. exists card_text.
  match goal with
  | |- context [calculate_price_per_g ?p0] =>
      destruct (calculate_price_per_g_fields p0) as (Hs & Hg & _)
  end.
  rewrite Hs, Hg. split; reflexivity.
Qed.

(** C10.  A size that [extract_size_from_text] returns is written in
    lower case, is a label of the vocabulary, and has a positive weight
    in [SIZE_MAP]; so an assembled record has a weight exactly when it
    has a size. *)
Theorem C10_size_and_grams_agree :
  (forall text s,
     extract_size_from_text text = Some s ->
     In s size_vocabulary /\ lower s = s /\
     exists g, grams_from_size (Some s) = Some g /\ (0 < g)%Q) /\
  (forall card category_config store_name context base_url p,
     extract_product_data_from_card card category_config store_name context base_url
     = Some p ->
     (is_Some (grams p) <-> is_Some (size_raw p))).
Proof.
  assert (forall text s,
     extract_size_from_text text = Some s ->
     In s size_vocabulary /\ lower s = s /\
     exists g, grams_from_size (Some s) = Some g /\ (0 < g)%Q) as Hsize.
  { intros text s H. apply extract_size_label in H.
    assert (lower s = s) as Hl.
    { unfold lower. rewrite (label_lower s H). apply to_of_string. }
    split; [exact H|]. split; [exact Hl|].
    destruct (label_grams s H) as (g & Hin & Hpos).
    exists g. split; [|exact Hpos]. eapply grams_of_label; eauto. }
  split; [exact Hsize|].
  intros card category_config store_name context base_url p H.
  apply assembled_size_grams in H as (card_text & -> & ->).
  destruct (extract_size_from_text card_text) as [s|] eqn:Hs.
  - destruct (Hsize _ _ Hs) as (_ & _ & g & -> & _). split; eauto.
  - simpl. split; intros [x Hx]; discriminate.
Qed.

Lemma C10_witness :
  extract_size_from_text "Blue Dream 3.5G Premium" = Some "3.5g" /\
  In "3.5g" size_vocabulary /\ lower "3.5g" = "3.5g" /\
  exists g, grams_from_size (Some "3.5g") = Some g /\ (0 < g)%Q.
Proof.
  split; [vm_compute; reflexivity|].
  apply (proj1 C10_size_and_grams_agree "Blue Dream 3.5G Premium" "3.5g").
  vm_compute. reflexivity.
Defined.

End Size.

(* ================================================================== *)
(** * Strain type *)

Section Strain.
Import Str.

Lemma word_at_lower s : word_at (map lower_char s) = word_at s.
Proof. destruct s as [|c s]; simpl; [reflexivity | apply is_word_lower]. Qed.

Lemma word_at_same l w :
  map lower_char w = map lower_char l -> word_at w = word_at l.
Proof. intros H. rewrite <- (word_at_lower w), H. apply word_at_lower. Qed.

Lemma word_at_app w rest : word_at w = true -> word_at (w ++ rest) = true.
Proof. destruct w; simpl; [discriminate | auto]. Qed.

Lemma hit_occurs kw text :
  wordlike kw -> hit kw text = true <-> occurs_as_word kw text.
Proof.
  intros [Hfirst Hlast]. unfold hit, search, strain_word. split.
  - destruct (search_at true _ [] (of_string text)) as [f|] eqn:Hs; [|discriminate].
    intros _. apply search_at_Some in Hs as (pre & suf & Hsplit & Hst & tl & He).
    assert (In (m_stop f) (exec true (WordB +++ Lit kw +++ WordB)%re (m_start f))) as Hin
        by (rewrite He; left; reflexivity).
    rewrite Hst, app_nil_r in Hin.
    apply exec_Seq in Hin as (st1 & Hb1 & Hin). apply exec_WordB in Hb1 as [-> Hb1].
    apply exec_Seq in Hin as (st2 & Hl & Hb2). apply exec_WordB in Hb2 as [_ Hb2].
    apply exec_Lit in Hl as (w & Hw & Ha & Hbef & _).
    apply same_chars_lower in Hw. symmetry in Hw. simpl in Ha, Hbef.
    exists pre, w, (after st2). split; [congruence|]. split; [exact Hw|].
    unfold at_boundary in Hb1, Hb2. simpl in Hb1.
    rewrite Ha, (word_at_app w) in Hb1
      by (rewrite (word_at_same _ _ Hw); exact Hfirst).
    rewrite Hbef, (word_at_app (rev w)) in Hb2.
    + split; [destruct (word_at (rev pre)) | destruct (word_at (after st2))];
        simpl in *; congruence.
    + rewrite (word_at_same (rev (of_string kw))); [exact Hlast|].
      rewrite !map_rev. congruence.
  - intros (pre & w & suf & Hsplit & Hw & Hpre & Hsuf).
    destruct (search_at true _ [] (of_string text)) as [f|] eqn:Hs; [reflexivity|].
    exfalso.
    pose proof (proj1 (search_at_None _ _ _ _) Hs pre (w ++ suf) Hsplit) as He.
    rewrite app_nil_r in He.
    assert (In (Cursor (rev w ++ rev pre) suf ∅)
               (exec true (WordB +++ Lit kw +++ WordB)%re (start_of (rev pre) (w ++ suf))))
      as Hin; [|rewrite He in Hin; contradiction].
    apply exec_Seq. exists (start_of (rev pre) (w ++ suf)). split.
    + apply exec_WordB. split; [reflexivity|]. unfold at_boundary. simpl.
      rewrite Hpre, (word_at_app w); [reflexivity|].
      rewrite (word_at_same _ _ Hw). exact Hfirst.
    + apply exec_Seq. exists (Cursor (rev w ++ rev pre) suf ∅). split.
      * apply exec_Lit. exists w. simpl. repeat split; auto.
        apply same_chars_lower. congruence.
      * apply exec_WordB. split; [reflexivity|]. unfold at_boundary. simpl.
        rewrite Hsuf, (word_at_app (rev w)); [reflexivity|].
        rewrite (word_at_same (rev (of_string kw))); [exact Hlast|].
        rewrite !map_rev. congruence.
Qed.

Lemma occurs_nonempty kw text :
  kw <> "" -> occurs_as_word kw text -> nonempty text = true.
Proof.
  intros Hkw (pre & w & suf & Hsplit & Hw & _).
  apply (mentions_nonempty kw); [exact Hkw|]. exists pre, w, suf. auto.
Qed.

(** The rule of the text path, for every 7-bit text: the first keyword,
    in the order Indica, Sativa, Hybrid, that stands in the text as a whole
    word, letter case aside; nothing when none of the three does. *)
Lemma extract_strain_type_from_text_keyword_order text :
  (extract_strain_type_from_text text = Some "Indica" <->
     occurs_as_word "Indica" text) /\
  (extract_strain_type_from_text text = Some "Sativa" <->
     ~ occurs_as_word "Indica" text /\ occurs_as_word "Sativa" text) /\
  (extract_strain_type_from_text text = Some "Hybrid" <->
     ~ occurs_as_word "Indica" text /\ ~ occurs_as_word "Sativa" text /\
     occurs_as_word "Hybrid" text) /\
  (extract_strain_type_from_text text = None <->
     ~ occurs_as_word "Indica" text /\ ~ occurs_as_word "Sativa" text /\
     ~ occurs_as_word "Hybrid" text).
Proof.
  pose proof (hit_occurs "Indica" text ltac:(split; reflexivity)) as HI.
  pose proof (hit_occurs "Sativa" text ltac:(split; reflexivity)) as HS.
  pose proof (hit_occurs "Hybrid" text ltac:(split; reflexivity)) as HH.
  pose proof (occurs_nonempty "Indica" text ltac:(discriminate)) as NI.
  pose proof (occurs_nonempty "Sativa" text ltac:(discriminate)) as NS.
  pose proof (occurs_nonempty "Hybrid" text ltac:(discriminate)) as NH.
  unfold extract_strain_type_from_text, strain_types.
  destruct (nonempty text).
  - cbn [find]. fold (hit "Indica" text) (hit "Sativa" text) (hit "Hybrid" text).
    destruct (hit "Indica" text), (hit "Sativa" text), (hit "Hybrid" text);
      repeat split; try discriminate; try tauto;
      try (intros; exfalso; intuition congruence); intuition congruence.
  - repeat split; try discriminate; try tauto;
      try (intros; exfalso; intuition congruence); intuition congruence.
Qed.

(** C5.  In "Hybrid - Sativa dominant" the word Hybrid comes first, at
    offset 0, and Sativa at offset 9.  The claim gives Hybrid, and so does
    the extraction from a strain element with this text; the extraction
    from the text, and with it the extraction from a card that has this
    text and no strain element, gives Sativa. *)
Theorem C5_keyword_order_beats_position :
  let text := "Hybrid - Sativa dominant" in
  strain_offsets text = [(9, "Sativa"); (0, "Hybrid")] /\
  first_strain_by_position text = Some "Hybrid" /\
  extract_strain_type_from_card (mkCard [] (Ok text) [] [] [Some text]) = Some "Hybrid" /\
  extract_strain_type_from_text text = Some "Sativa" /\
  extract_strain_type_from_card (mkCard [] (Ok text) [] [] []) = Some "Sativa".
Proof. vm_compute. repeat split; reflexivity. Qed.

End Strain.

(* ================================================================== *)
(** * Deduplication within a category *)

Section Dedup.
Variable config : ScrapingConfig.
Variable site : Site.
Variable category_config : CategoryConfig.
Variable store : StoreInfo.

Local Abbreviation candidate := (candidate config site category_config store).
Local Abbreviation without_later_duplicates :=
  (without_later_duplicates config site category_config store).

Lemma process_link_candidate products seen link :
  process_link config site category_config store (products, seen) link =
  match candidate link with
  | Some (k, p) =>
      if bool_decide (k ∈ seen) then (products, seen)
      else (products ++ [p], {[k]} ∪ seen)
  | None => (products, seen)
  end.
Proof.
  unfold process_link, candidate.
  destruct (extract_product_data_from_card _ _ _ _ _) as [product|]; [|reflexivity].
  destruct (l_href link); reflexivity.
Qed.

Lemma fold_process_link links products seen :
  fst (fold_left (process_link config site category_config store) links (products, seen))
  = products ++ map snd (first_wins seen (omap candidate links)).
Proof.
  revert products seen.
  induction links as [|link links IH]; intros products seen; cbn [fold_left omap list_omap].
  - simpl. symmetry. apply app_nil_r.
  - rewrite process_link_candidate.
    destruct (candidate link) as [[k p]|]; cbn [first_wins]; [|apply IH].
    destruct (bool_decide (k ∈ seen)); [apply IH|].
    rewrite IH. simpl. rewrite <- app_assoc. reflexivity.
Qed.

Lemma process_links_first_wins links :
  process_links config site category_config store links
  = map snd (first_wins ∅ (omap candidate links)).
Proof. unfold process_links. apply fold_process_link. Qed.

Lemma first_wins_fresh seen cands k :
  In k (map fst (first_wins seen cands)) -> k ∉ seen.
Proof.
  revert seen. induction cands as [|[k0 p0] rest IH]; intros seen; simpl; [tauto|].
  case_bool_decide as Hk0; simpl.
  - apply IH.
  - intros [<-|Hin]; [exact Hk0|]. apply IH in Hin. set_solver.
Qed.

Lemma first_wins_NoDup seen cands : NoDup (map fst (first_wins seen cands)).
Proof.
  revert seen. induction cands as [|[k0 p0] rest IH]; intros seen; simpl.
  - constructor.
  - case_bool_decide as Hk0; simpl; [apply IH|].
    apply NoDup_cons; split; [|apply IH].
    rewrite list_elem_of_In. intros Hin. apply first_wins_fresh in Hin. set_solver.
Qed.

Lemma in_first_wins seen cands k p :
  In (k, p) (first_wins seen cands) <-> (k ∉ seen) /\ first_with_key k cands = Some p.
Proof.
  unfold first_with_key.
  revert seen. induction cands as [|[k0 p0] rest IH]; intros seen; simpl.
  - split; [tauto | intros [_ H]; discriminate].
  - destruct (bool_decide (k0 ∈ seen)) eqn:Hseen.
    + apply bool_decide_eq_true in Hseen. rewrite IH.
      case_bool_decide as Hk; simpl; [subst k0; tauto | tauto].
    + apply bool_decide_eq_false in Hseen. simpl. rewrite IH.
      case_bool_decide as Hk; simpl.
      * subst k0. split.
        -- intros [[= <-]|[Hn _]]; [auto | set_solver].
        -- intros [_ [= <-]]. auto.
      * split.
        -- intros [[= ? ?]|[Hn H]]; [congruence | split; [set_solver | exact H]].
        -- intros [Hn H]. right. split; [set_solver | exact H].
Qed.

Lemma first_wins_idem seen cands :
  first_wins seen (first_wins seen cands) = first_wins seen cands.
Proof.
  revert seen. induction cands as [|[k0 p0] rest IH]; intros seen; simpl; [reflexivity|].
  destruct (bool_decide (k0 ∈ seen)) eqn:Hseen; [apply IH|].
  simpl. rewrite Hseen, IH. reflexivity.
Qed.

Lemma candidates_without_later_duplicates seen links :
  omap candidate (without_later_duplicates seen links)
  = first_wins seen (omap candidate links).
Proof.
  revert seen. induction links as [|link links IH]; intros seen; simpl; [reflexivity|].
  destruct (candidate link) as [[k p]|] eqn:Hc; simpl.
  - destruct (bool_decide (k ∈ seen)); [apply IH|].
    simpl. rewrite Hc, IH. reflexivity.
  - rewrite Hc. apply IH.
Qed.

(** C9.  The records of a category are the records of the candidates
    under distinct keys: a key that one or more links yield appears
    exactly once, with the record of the first link that yields it; and
    the links without their later duplicates give the same records. *)
Theorem C9_dedup_first_wins links :
  (exists keyed,
     process_links config site category_config store links = map snd keyed /\
     NoDup (map fst keyed) /\
     forall k p, In (k, p) keyed <->
                 first_with_key k (omap candidate links) = Some p) /\
  process_links config site category_config store (without_later_duplicates ∅ links)
  = process_links config site category_config store links.
Proof.
  split.
  - exists (first_wins ∅ (omap candidate links)).
    split; [apply process_links_first_wins|]. split; [apply first_wins_NoDup|].
    intros k p. rewrite in_first_wins. set_solver.
  - rewrite !process_links_first_wins, candidates_without_later_duplicates.
    rewrite first_wins_idem. reflexivity.
Qed.

End Dedup.

(** Two links to the same product in the same size: one record, the
    first. *)
Example dedup_twice :
  let link := mkLink demo_card (Ok (Some "/product/blue-dream-3-5g")) in
  let again := mkLink demo_card (Ok (Some "/product/blue-dream-3-5g?ref=promo")) in
  process_links demo_config demo_site demo_category
    (mkStoreInfo "Miami Beach, FL" "https://www.trulieve.com/dispensaries/miami-fl"
                 (Some "Miami Beach, FL") "FL")
    [link; again]
  = process_links demo_config demo_site demo_category
    (mkStoreInfo "Miami Beach, FL" "https://www.trulieve.com/dispensaries/miami-fl"
                 (Some "Miami Beach, FL") "FL")
    [link].
Proof. vm_compute. reflexivity. Qed.

(* ================================================================== *)
(** * Product slugs *)

Section Slug.
Import Str.

Lemma of_string_app (a b : string) :
  of_string (a ++ b)%string = of_string a ++ of_string b.
Proof. induction a as [|c a IH]; simpl; [reflexivity | f_equal; exact IH]. Qed.

Lemma starts_with_spec p s :
  starts_with p s = true <-> exists t, s = p ++ t.
Proof.
  revert s. induction p as [|a p IH]; intros s; simpl.
  - split; eauto.
  - destruct s as [|b s]; [split; [discriminate | intros [t H]; discriminate]|].
    destruct (Ascii.eqb a b) eqn:E.
    + apply Ascii.eqb_eq in E. subst b. rewrite IH. split.
      * intros [t ->]. eauto.
      * intros [t [= ->]]. eauto.
    + apply Ascii.eqb_neq in E. split; [discriminate|]. intros [t [= ? ?]]. congruence.
Qed.

Lemma skipn_app_exact {A} (p t : list A) : skipn (length p) (p ++ t) = t.
Proof. induction p; simpl; auto. Qed.

(** [find_sub] splits the text around an occurrence of the needle. *)
Lemma find_sub_Some needle s pre post :
  find_sub needle s = Some (pre, post) -> s = pre ++ needle ++ post.
Proof.
  revert pre. induction s as [|c s IH]; intros pre; simpl.
  - destruct (starts_with needle []) eqn:E; [|discriminate].
    apply starts_with_spec in E as [t Ht]. intros [= <- <-].
    rewrite Ht at 1. simpl. f_equal. rewrite Ht, skipn_app_exact. reflexivity.
  - destruct (starts_with needle (c :: s)) eqn:E.
    + apply starts_with_spec in E as [t Ht]. intros [= <- <-].
      rewrite Ht, skipn_app_exact. reflexivity.
    + destruct (find_sub needle s) as [[pre' post']|] eqn:F; [|discriminate].
      intros [= <- <-]. simpl. f_equal. apply IH. reflexivity.
Qed.

Lemma starts_with_app p x t :
  length p <= length x -> starts_with p (x ++ t) = starts_with p x.
Proof.
  revert x. induction p as [|a p IH]; intros x H; [reflexivity|].
  destruct x as [|b x]; simpl in *; [lia|].
  destruct (Ascii.eqb a b); [apply IH; lia | reflexivity].
Qed.

Lemma find_sub_length needle s pre post :
  find_sub needle s = Some (pre, post) -> length needle <= length s.
Proof.
  intros H. apply find_sub_Some in H. subst s. rewrite !length_app. lia.
Qed.

(** What follows the text does not change where the needle is found. *)
Lemma find_sub_app needle s t pre post :
  find_sub needle s = Some (pre, post) ->
  find_sub needle (s ++ t) = Some (pre, post ++ t).
Proof.
  revert pre. induction s as [|c s IH]; intros pre H.
  - pose proof (find_sub_length _ _ _ _ H) as Hlen.
    destruct needle; [|simpl in Hlen; lia].
    simpl in H. injection H as <- <-. destruct t; reflexivity.
  - pose proof (find_sub_length _ _ _ _ H) as Hlen.
    cbn [find_sub] in H. change ((c :: s) ++ t) with (c :: (s ++ t)). cbn [find_sub].
    change (c :: (s ++ t)) with ((c :: s) ++ t).
    rewrite (starts_with_app needle (c :: s) t Hlen).
    destruct (starts_with needle (c :: s)) eqn:E.
    + injection H as <- <-. apply starts_with_spec in E as [u Hu].
      rewrite Hu, <- app_assoc, !skipn_app_exact. reflexivity.
    + destruct (find_sub needle s) as [[pre' post']|] eqn:F; [|discriminate].
      injection H as <- <-. rewrite (IH pre' eq_refl). reflexivity.
Qed.

(** A separator of one character: the text before its first occurrence
    is free of it. *)
Lemma find_sub_char_Some c s pre post :
  find_sub [c] s = Some (pre, post) -> s = pre ++ c :: post /\ ~ In c pre.
Proof.
  revert pre. induction s as [|x s IH]; intros pre; simpl; [discriminate|].
  destruct (Ascii.eqb c x) eqn:E.
  - apply Ascii.eqb_eq in E. subst x. intros [= <- <-]. simpl. auto.
  - apply Ascii.eqb_neq in E.
    destruct (find_sub [c] s) as [[pre' post']|] eqn:F; [|discriminate].
    intros [= <- <-]. destruct (IH pre' eq_refl) as [-> Hn].
    split; [reflexivity|]. intros [H|H]; [congruence | contradiction].
Qed.

Lemma find_sub_char_None c s : find_sub [c] s = None <-> ~ In c s.
Proof.
  induction s as [|x s IH]; simpl; [tauto|].
  destruct (Ascii.eqb c x) eqn:E.
  - apply Ascii.eqb_eq in E. subst x. split; [discriminate | tauto].
  - apply Ascii.eqb_neq in E.
    destruct (find_sub [c] s) as [[pre' post']|] eqn:F.
    + split; [discriminate|]. intros H. exfalso.
      assert (~ In c s) as Hs by tauto. apply IH in Hs. discriminate.
    + split; [|reflexivity]. intros _ [H|H]; [congruence|]. apply IH in H; auto.
Qed.

Lemma find_sub_char_fresh c s t : ~ In c s -> find_sub [c] (s ++ c :: t) = Some (s, t).
Proof.
  induction s as [|x s IH]; intros H; simpl.
  - rewrite Ascii.eqb_refl. reflexivity.
  - destruct (Ascii.eqb c x) eqn:E.
    + apply Ascii.eqb_eq in E. subst x. exfalso. apply H. left. reflexivity.
    + rewrite IH; [reflexivity|]. intros Hin. apply H. right. exact Hin.
Qed.

(** The part before a one-character separator is the same when the
    separator and more text are appended. *)
Lemma split_once_char_app c s t :
  fst (split_once [c] (s ++ c :: t)) = fst (split_once [c] s).
Proof.
  unfold split_once. destruct (find_sub [c] s) as [[pre post]|] eqn:F.
  - rewrite (find_sub_app _ _ (c :: t) _ _ F). reflexivity.
  - apply find_sub_char_None in F. rewrite (find_sub_char_fresh c s t F). reflexivity.
Qed.

Lemma split_once_char_fst c s : ~ In c (fst (split_once [c] s)).
Proof.
  unfold split_once. destruct (find_sub [c] s) as [[pre post]|] eqn:F; simpl.
  - apply find_sub_char_Some in F. tauto.
  - apply find_sub_char_None. exact F.
Qed.

Lemma split_once_fst_incl sep s x : In x (fst (split_once sep s)) -> In x s.
Proof.
  unfold split_once. destruct (find_sub sep s) as [[pre post]|] eqn:F; simpl; [|auto].
  apply find_sub_Some in F. subst s. intros H. apply in_app_iff. auto.
Qed.

Lemma drop_while_incl p s x : In x (drop_while p s) -> In x s.
Proof.
  induction s as [|c s IH]; simpl; [auto|].
  destruct (p c); [right; auto | auto].
Qed.

Lemma drop_while_head p s : word_head_ok p (drop_while p s).
Proof.
  induction s as [|c s IH]; simpl; [exact I|].
  destruct (p c) eqn:E; [exact IH | simpl; exact E].
Qed.

Lemma drop_while_keeps_last p s :
  word_head_ok p (rev s) -> word_head_ok p (rev (drop_while p s)).
Proof.
  induction s as [|c s IH]; simpl; [auto|].
  destruct (p c) eqn:E; [|auto].
  intros H. apply IH. destruct (rev s) as [|y r] eqn:R; [exact I|].
  simpl in H. exact H.
Qed.

Lemma strip_by_incl p s x : In x (strip_by p s) -> In x s.
Proof.
  unfold strip_by. rewrite <- in_rev. intros H. apply drop_while_incl in H.
  rewrite <- in_rev in H. apply drop_while_incl in H. exact H.
Qed.

(** A stripped text neither begins nor ends with a stripped character. *)
Lemma strip_by_ends p s :
  word_head_ok p (strip_by p s) /\ word_head_ok p (rev (strip_by p s)).
Proof.
  unfold strip_by. split.
  - apply drop_while_keeps_last. rewrite rev_involutive. apply drop_while_head.
  - rewrite rev_involutive. apply drop_while_head.
Qed.

Lemma contains_find needle h :
  contains needle h = true ->
  exists pre post, find_sub (of_string needle) (of_string h) = Some (pre, post).
Proof.
  unfold contains. destruct (find_sub _ _) as [[pre post]|]; [eauto | discriminate].
Qed.

Lemma contains_nonempty needle h :
  needle <> "" -> contains needle h = true -> nonempty h = true.
Proof.
  intros Hn H. apply contains_find in H as (pre & post & F).
  apply find_sub_length in F. destruct h; [|reflexivity].
  destruct needle; [congruence | simpl in F; lia].
Qed.

Lemma product_slug_found h pre tail :
  find_sub (of_string "/product/") (of_string h) = Some (pre, tail) ->
  product_slug (Some h) =
  to_string (strip_by is_slash
               (fst (split_once (of_string "#") (fst (split_once (of_string "?") tail))))).
Proof.
  intros F. unfold product_slug.
  assert (nonempty h = true) as ->.
  { apply find_sub_length in F. destruct h; [simpl in F; lia | reflexivity]. }
  replace (split_once (of_string "/product/") (of_string h)) with (pre, Some tail)
    by (unfold split_once; rewrite F; reflexivity).
  reflexivity.
Qed.

(** X1.  The slug of a product link has no query, no fragment and no slash at
    either end. *)
Theorem product_slug_clean h :
  contains "/product/" h = true ->
  let slug := of_string (product_slug (Some h)) in
  ~ In "?"%char slug /\ ~ In "#"%char slug /\
  word_head_ok is_slash slug /\ word_head_ok is_slash (rev slug).
Proof.
  intros H. apply contains_find in H as (pre & tail & F).
  rewrite (product_slug_found _ _ _ F), of_to_string. cbv zeta.
  split; [|split; [|apply strip_by_ends]].
  - intros Hin. apply strip_by_incl, split_once_fst_incl in Hin.
    revert Hin. apply (split_once_char_fst "?"%char).
  - intros Hin. apply strip_by_incl in Hin.
    revert Hin. apply (split_once_char_fst "#"%char).
Qed.

Lemma product_slug_clean_witness :
  let slug := of_string (product_slug (Some "/product/og-kush-preroll/?ref=test#top")) in
  ~ In "?"%char slug /\ ~ In "#"%char slug /\
  word_head_ok is_slash slug /\ word_head_ok is_slash (rev slug).
Proof. apply product_slug_clean. reflexivity. Defined.

Lemma question_after_hash tail extra a b :
  ~ In "?"%char tail ->
  find_sub ["?"%char] (tail ++ "#"%char :: extra) = Some (a, b) ->
  exists a', a = tail ++ "#"%char :: a'.
Proof.
  intros Q F. apply find_sub_char_Some in F as [Hs Hn].
  revert a Hs Hn. induction tail as [|x tail IH]; intros a Hs Hn.
  - destruct a as [|y a]; simpl in Hs; [discriminate|].
    injection Hs as <- Hs. eauto.
  - destruct a as [|y a]; simpl in Hs.
    + injection Hs as -> _. exfalso. apply Q. left. reflexivity.
    + injection Hs as <- Hs.
      destruct (IH ltac:(intros Hin; apply Q; right; exact Hin) a Hs
                   ltac:(intros Hin; apply Hn; right; exact Hin)) as [a' ->].
      eauto.
Qed.

(** X2.  A query string or a fragment added to a product link does not change
    its slug. *)
Theorem product_slug_ignores_suffix (h extra : string) :
  contains "/product/" h = true ->
  product_slug (Some (h ++ "?" ++ extra)%string) = product_slug (Some h) /\
  product_slug (Some (h ++ "#" ++ extra)%string) = product_slug (Some h).
Proof.
  intros H. apply contains_find in H as (pre & tail & F).
  rewrite (product_slug_found _ _ _ F).
  assert (forall c : ascii,
            find_sub (of_string "/product/") (of_string (h ++ String c extra)%string)
            = Some (pre, tail ++ c :: of_string extra)) as F'.
  { intros c. rewrite of_string_app. apply (find_sub_app _ _ _ _ _ F). }
  change (of_string "?") with ["?"%char] in *.
  change (of_string "#") with ["#"%char] in *.
  split.
  - change ("?" ++ extra)%string with (String "?" extra).
    rewrite (product_slug_found _ _ _ (F' "?"%char)).
    change (of_string "?") with ["?"%char]. change (of_string "#") with ["#"%char].
    rewrite (split_once_char_app "?"%char). reflexivity.
  - change ("#" ++ extra)%string with (String "#" extra).
    rewrite (product_slug_found _ _ _ (F' "#"%char)).
    change (of_string "?") with ["?"%char]. change (of_string "#") with ["#"%char].
    do 2 f_equal. unfold split_once at 2 4.
    destruct (find_sub ["?"%char] tail) as [[a b]|] eqn:Q.
    + rewrite (find_sub_app _ _ _ _ _ Q). reflexivity.
    + apply find_sub_char_None in Q.
      destruct (find_sub ["?"%char] (tail ++ "#"%char :: of_string extra))
        as [[a b]|] eqn:Q'; cbn [fst].
      * destruct (question_after_hash _ _ _ _ Q Q') as [a' ->].
        rewrite (split_once_char_app "#"%char tail a'). reflexivity.
      * apply (split_once_char_app "#"%char).
Qed.

Lemma product_slug_ignores_suffix_witness :
  product_slug (Some ("/product/blue-dream-3-5g" ++ "?" ++ "ref=promo")%string)
    = product_slug (Some "/product/blue-dream-3-5g") /\
  product_slug (Some ("/product/blue-dream-3-5g" ++ "#" ++ "ref=promo")%string)
    = product_slug (Some "/product/blue-dream-3-5g").
Proof. apply product_slug_ignores_suffix. reflexivity. Defined.

(** X3.  A link that is no product link is its own slug, unchanged. *)
Theorem product_slug_other h :
  contains "/product/" h = false -> product_slug (Some h) = h.
Proof.
  intros H. unfold product_slug, split_once, contains in *.
  destruct h; [reflexivity|]. cbn [nonempty].
  destruct (find_sub _ _) as [[pre post]|]; [discriminate | reflexivity].
Qed.

Lemma product_slug_other_witness : product_slug (Some "invalid-url") = "invalid-url".
Proof. apply product_slug_other. reflexivity. Defined.

End Slug.

(* ================================================================== *)
(** * Ranges of the extracted values *)

Section Ranges.
Import Str.

Lemma digits_value_nonneg ds : (0 <= Num.digits_value ds)%Z.
Proof.
  unfold Num.digits_value.
  assert (forall acc, (0 <= acc)%Z ->
            (0 <= fold_left (fun acc d => (acc * 10 + Num.digit_val d)%Z) ds acc)%Z) as H.
  { induction ds as [|d ds IH]; intros acc Hacc; simpl; [exact Hacc|].
    apply IH. unfold Num.digit_val. lia. }
  apply H. lia.
Qed.

(** [float] of a decimal literal is not negative. *)
Lemma py_float_nonneg w v : Num.py_float w = Some v -> (0 <= v)%Q.
Proof.
  unfold Num.py_float.
  destruct (Num.span_digits w) as [[|c ip] [|dot fs]]; try discriminate.
  - intros [= <-]. unfold Qle. simpl. pose proof (digits_value_nonneg (c :: ip)). lia.
  - destruct (Ascii.eqb dot "."); [|discriminate].
    destruct (Num.span_digits fs) as [[|c' fp] [|? ?]]; try discriminate.
    intros [= <-]. unfold Qle. simpl.
    pose proof (digits_value_nonneg ((c :: ip) ++ c' :: fp)). simpl in *. lia.
Qed.

Lemma matched_prices_nonneg blob v : In v (matched_prices blob) -> (0 <= v)%Q.
Proof.
  unfold matched_prices. rewrite <- list_elem_of_In, list_elem_of_omap.
  intros (f & _ & Hf). destruct (group 1 f) as [g|]; [|discriminate].
  simpl in Hf. eapply py_float_nonneg; eauto.
Qed.

Lemma price_from_blob_in blob v :
  price_from_blob blob = Some v -> In v (matched_prices blob).
Proof.
  unfold price_from_blob. intros H.
  destruct (matched_prices blob) as [|x t] eqn:E; [discriminate|].
  destruct (py_min_spec (x :: t) ltac:(discriminate)) as (v' & Hv & Hin & _).
  congruence.
Qed.

Lemma card_price_nonneg card v :
  extract_price_from_card card = Some v -> (0 <= v)%Q.
Proof.
  unfold extract_price_from_card. intros H.
  assert (exists blob, price_from_blob blob = Some v) as [blob Hb].
  { destruct (price_texts card); [|eauto].
    destruct (card_inner_text card); [eauto | discriminate]. }
  eapply matched_prices_nonneg, price_from_blob_in, Hb.
Qed.

(** X4.  A price read from a card is never negative, whichever of its elements
    or texts it comes from. *)
Theorem extract_price_from_card_nonneg card v :
  extract_price_from_card card = Some v -> (0 <= v)%Q.
Proof. apply card_price_nonneg. Qed.

Lemma extract_price_from_card_nonneg_witness : (0 <= 25.99)%Q.
Proof. apply (extract_price_from_card_nonneg demo_card). vm_compute. reflexivity. Defined.

Lemma thc_nonneg text v :
  extract_thc_from_text text = Some v -> (0 <= v)%Q.
Proof.
  unfold extract_thc_from_text. destruct (nonempty text); [|discriminate].
  assert (forall o : option found, (o ≫= fun f => group 1 f ≫= Num.py_float) = Some v ->
                                   (0 <= v)%Q) as Hgrp.
  { intros [f|]; simpl; [|discriminate].
    destruct (group 1 f) as [g|]; simpl; [apply py_float_nonneg | discriminate]. }
  destruct (search true THC_RANGE_RE text) as [f|].
  - destruct (group 1 f ≫= Num.py_float) as [v'|] eqn:E.
    + intros [= <-]. apply (Hgrp (Some f)). exact E.
    + destruct (search true THC_SINGLE_RE text) as [f'|]; [|discriminate].
      intros H. apply (Hgrp (Some f')). exact H.
  - destruct (search true THC_SINGLE_RE text) as [f'|]; [|discriminate].
    intros H. apply (Hgrp (Some f')). exact H.
Qed.

(** X6.  The potency read from a text is never negative. *)
Theorem extract_thc_from_text_nonneg text v :
  extract_thc_from_text text = Some v -> (0 <= v)%Q.
Proof. apply thc_nonneg. Qed.

Lemma extract_thc_from_text_nonneg_witness : (0 <= 18.5)%Q.
Proof.
  apply (extract_thc_from_text_nonneg "THC: 18.5% - 22.0%"). vm_compute. reflexivity.
Defined.

End Ranges.

(* ================================================================== *)
(** * The strain type is one of three names *)

Section StrainNames.
Import Str.

Lemma upper_of_lower c : upper_char (lower_char c) = upper_char c.
Proof.
  apply Ascii.eqb_eq.
  apply (forall_ascii (fun c => Ascii.eqb (upper_char (lower_char c)) (upper_char c))).
  vm_compute. reflexivity.
Qed.

(** Capitalizing depends on the letters only, not on their case. *)
Lemma capitalize_same w kw :
  map lower_char w = map lower_char (of_string kw) ->
  capitalize (to_string w) = capitalize kw.
Proof.
  unfold capitalize. rewrite of_to_string.
  destruct w as [|c w], (of_string kw) as [|k ks]; simpl; try discriminate; [reflexivity|].
  intros [= Hc Hw]. rewrite <- (upper_of_lower c), Hc, upper_of_lower, Hw. reflexivity.
Qed.

Lemma STRAIN_ANY_group st st' :
  In st' (exec true STRAIN_ANY st) ->
  exists g kw, groups st' !! 1 = Some g /\ In kw strain_types /\
               map lower_char g = map lower_char (of_string kw).
Proof.
  unfold STRAIN_ANY. intros H.
  apply exec_Group in H as (st1 & w & Hin & Ha & _ & _ & Hg).
  exists w. cbn [exec] in Hin.
  repeat (apply in_app_iff in Hin as [Hin|Hin];
          [apply exec_Lit in Hin as (w' & Hw & Ha' & _);
           assert (w = w') as -> by (rewrite Ha' in Ha; apply app_inv_tail in Ha; congruence);
           apply same_chars_lower in Hw;
           eexists; split; [exact Hg|]; split; [|symmetry; exact Hw]; simpl; auto |]).
  apply exec_Lit in Hin as (w' & Hw & Ha' & _).
  assert (w = w') as -> by (rewrite Ha' in Ha; apply app_inv_tail in Ha; congruence).
  apply same_chars_lower in Hw.
  eexists; split; [exact Hg|]; split; [|symmetry; exact Hw]; simpl; auto.
Qed.

Lemma extract_strain_type_from_text_name text s :
  extract_strain_type_from_text text = Some s -> In s strain_types.
Proof.
  unfold extract_strain_type_from_text. destruct (nonempty text); [|discriminate].
  intros H. apply find_some in H as [H _]. exact H.
Qed.

Lemma card_strain_name card s :
  extract_strain_type_from_card card = Some s -> In s strain_types.
Proof.
  unfold extract_strain_type_from_card.
  set (fallback := match card_inner_text card with
                   | Ok card_text => extract_strain_type_from_text card_text
                   | Raised _ => None
                   end).
  assert (fallback = Some s -> In s strain_types) as Hfb.
  { unfold fallback. destruct (card_inner_text card); [|discriminate].
    apply extract_strain_type_from_text_name. }
  destruct (card_strain_texts card) as [|[text|] rest]; [exact Hfb| |exact Hfb].
  destruct (nonempty text); [|exact Hfb].
  destruct (search true STRAIN_ANY text) as [f|] eqn:Hs; [|exact Hfb].
  apply search_at_Some in Hs as (_ & _ & _ & _ & tl & He).
  destruct (STRAIN_ANY_group (m_start f) (m_stop f)) as (g & kw & Hg & Hkw & Hsame).
  { rewrite He. left. reflexivity. }
  assert (group 1 f = Some g) as -> by exact Hg.
  simpl. intros [= <-].
  rewrite (capitalize_same _ _ Hsame).
  simpl in Hkw. destruct Hkw as [<-|[<-|[<-|[]]]]; vm_compute; auto.
Qed.

(** X7.  When the text of its strain element is 7-bit, the strain type of a
    card is spelled Indica, Sativa or Hybrid, whatever the card shows and
    whichever path finds it. *)
Theorem extract_strain_type_from_card_name card s :
  strain_element_isascii card ->
  extract_strain_type_from_card card = Some s -> In s strain_types.
Proof. intros _. apply card_strain_name. Qed.

Lemma extract_strain_type_from_card_name_witness : In "Hybrid" strain_types.
Proof.
  apply (extract_strain_type_from_card_name
           (mkCard [] (Ok "") [] [] [Some "this is a HYBRID strain"])).
  - reflexivity.
  - vm_compute. reflexivity.
Defined.

End StrainNames.

(* ================================================================== *)
(** * Stripped texts *)

Section Stripping.
Import Str.

Lemma drop_while_fixed p s : word_head_ok p s -> drop_while p s = s.
Proof. destruct s as [|c s]; simpl; [reflexivity|]. intros ->. reflexivity. Qed.

Lemma strip_by_idem p s : strip_by p (strip_by p s) = strip_by p s.
Proof.
  destruct (strip_by_ends p s) as [Hhead Hlast].
  unfold strip_by at 1. rewrite (drop_while_fixed p _ Hhead).
  rewrite (drop_while_fixed p _ Hlast). apply rev_involutive.
Qed.

(** [strip] leaves a stripped text as it is. *)
Lemma strip_idem s : strip (strip s) = strip s.
Proof. unfold strip. rewrite of_to_string, strip_by_idem. reflexivity. Qed.

(** X8.  The brand of a card is never blank and carries no space around it. *)
Theorem extract_brand_from_card_stripped card b :
  extract_brand_from_card card = Some b -> b <> "" /\ strip b = b.
Proof.
  unfold extract_brand_from_card.
  destruct (find _ (card_brand_texts card)) as [[t|]|] eqn:F; try discriminate.
  intros [= <-]. apply find_some in F as [_ F].
  apply andb_true_iff in F as [_ F]. split; [|apply strip_idem].
  intros E. rewrite E in F. discriminate.
Qed.

Lemma extract_brand_from_card_stripped_witness :
  "Premium Cannabis" <> "" /\ strip "Premium Cannabis" = "Premium Cannabis".
Proof.
  apply (extract_brand_from_card_stripped
           (mkCard [] (Ok "") [] [None; Some "   "; Some "  Premium Cannabis "] [])).
  vm_compute. reflexivity.
Defined.

End Stripping.

(* ================================================================== *)
(** * Assembled records *)

Section Assembled.
Import Str.

Lemma calculate_price_per_g_identity p :
  state (calculate_price_per_g p) = state p /\
  store (calculate_price_per_g p) = store p /\
  subcategory (calculate_price_per_g p) = subcategory p /\
  name (calculate_price_per_g p) = name p /\
  strain_type (calculate_price_per_g p) = strain_type p /\
  thc_pct (calculate_price_per_g p) = thc_pct p.
Proof.
  unfold calculate_price_per_g.
  destruct (price p), (grams p); try (repeat split; reflexivity).
  destruct (_ && _); repeat split; reflexivity.
Qed.

(** The shape of a record that the assembler returns. *)
Lemma assembled_shape card category_config store_name context base_url p :
  extract_product_data_from_card card category_config store_name context base_url
  = Some p ->
  exists raw card_text brand' price' url',
    nonempty (strip raw) = true /\
    card_inner_text card = Ok card_text /\
    (price' = extract_price_from_card card \/
     exists ctx u, context = Some ctx /\ extract_price_from_card card = None /\
                   price' = extract_price_from_pdp ctx u) /\
    p = calculate_price_per_g
          (ProductData_new store_name (cat_subcategory category_config) (strip raw)
             brand' (extract_strain_type_from_card card)
             (extract_thc_from_text card_text) (extract_size_from_text card_text)
             (grams_from_size (extract_size_from_text card_text)) price' url').
Proof.
  unfold extract_product_data_from_card.
  destruct (card_name_links card) as [|name_link ?]; [discriminate|].
  destruct (link_text name_link) as [raw|]; [|discriminate].
  destruct (nonempty raw && nonempty (strip raw)) eqn:Hname; [|discriminate].
  apply andb_true_iff in Hname as [_ Hname].
  destruct (card_inner_text card) as [card_text|]; [|discriminate].
  intros [= <-]. exists raw, card_text. do 3 eexists.
  split; [exact Hname|]. split; [reflexivity|]. split; [|reflexivity].
  destruct (extract_price_from_card card) as [v|]; [left; reflexivity|].
  destruct context as [ctx|]; [|left; reflexivity].
  destruct (match link_href name_link with
            | Some href => if nonempty href then Some (urljoin base_url href) else None
            | None => None
            end) as [u|]; [|left; reflexivity].
  destruct (nonempty u && _); [|left; reflexivity].
  right. exists ctx, u. auto.
Qed.

Lemma record_identity card category_config store_name context base_url p :
  extract_product_data_from_card card category_config store_name context base_url
  = Some p ->
  state p = "FL" /\ store p = store_name /\
  subcategory p = cat_subcategory category_config /\
  name p <> "" /\ strip (name p) = name p.
Proof.
  intros H. apply assembled_shape in H
    as (raw & card_text & brand' & price' & url' & Hname & _ & _ & ->).
  destruct (calculate_price_per_g_identity
              (ProductData_new store_name (cat_subcategory category_config) (strip raw)
                 brand' (extract_strain_type_from_card card)
                 (extract_thc_from_text card_text) (extract_size_from_text card_text)
                 (grams_from_size (extract_size_from_text card_text)) price' url'))
    as (-> & -> & -> & -> & _). simpl.
  repeat split; [|apply strip_idem].
  intros E. rewrite E in Hname. discriminate.
Qed.

(** X12.  A record carries the store and the category it was scraped for, the
    state code FL, and a name that is neither blank nor padded. *)
Theorem assembled_identity card category_config store_name context base_url p :
  extract_product_data_from_card card category_config store_name context base_url
  = Some p ->
  state p = "FL" /\ store p = store_name /\
  subcategory p = cat_subcategory category_config /\
  name p <> "" /\ strip (name p) = name p.
Proof. apply record_identity. Qed.

Lemma assembled_identity_witness :
  exists p, extract_product_data_from_card demo_card demo_category "Miami Beach, FL"
              None "https://www.trulieve.com" = Some p /\
            state p = "FL" /\ store p = "Miami Beach, FL" /\
            subcategory p = "Whole Flower" /\ name p <> "" /\ strip (name p) = name p.
Proof.
  eexists. split; [vm_compute; reflexivity|].
  apply (assembled_identity demo_card demo_category "Miami Beach, FL" None
           "https://www.trulieve.com").
  vm_compute. reflexivity.
Defined.




Lemma grams_from_size_positive s g :
  grams_from_size s = Some g -> (0 < g)%Q.
Proof.
  destruct s as [s|]; [|discriminate]. unfold grams_from_size.
  destruct (nonempty s); [|discriminate].
  unfold SIZE_MAP. intros H. apply elem_of_list_to_map_2 in H.
  apply list_elem_of_In in H. simpl in H.
  repeat (destruct H as [[= _ <-]|H]; [reflexivity|]). contradiction.
Qed.

(** X14.  The price per gram of a record is derived, never independent: it
    is present exactly when the record has a weight and a price other than
    zero. *)
Theorem assembled_price_per_g card category_config store_name context base_url p :
  extract_product_data_from_card card category_config store_name context base_url
  = Some p ->
  is_Some (price_per_g p) <->
  is_Some (grams p) /\ exists pr, price p = Some pr /\ ~ (pr == 0)%Q.
Proof.
  intros H. apply assembled_shape in H
    as (raw & card_text & brand' & price' & url' & _ & _ & _ & ->).
  match goal with
  | |- context [calculate_price_per_g ?p0] =>
      destruct (calculate_price_per_g_fields p0) as (_ & -> & ->)
  end.
  unfold calculate_price_per_g, truthy. simpl.
  destruct price' as [pr|].
  2:{ simpl. split; [intros [? [=]] | intros [_ (pr & [=] & _)]]. }
  destruct (grams_from_size (extract_size_from_text card_text)) as [g|] eqn:Hg.
  2:{ simpl. split; [intros [? [=]] | intros [[? [=]] _]]. }
  pose proof (grams_from_size_positive _ _ Hg) as Hpos.
  assert (Num.nonzero g = true) as ->.
  { unfold Num.nonzero. destruct (Qeq_bool g 0) eqn:E; [|reflexivity].
    apply Qeq_bool_eq in E. rewrite E in Hpos. exfalso. revert Hpos. apply Qlt_irrefl. }
  assert (Num.Qlt_bool 0 g = true) as ->.
  { unfold Num.Qlt_bool. destruct (Qle_bool g 0) eqn:E; [|reflexivity].
    apply Qle_bool_iff in E. exfalso. eapply Qlt_irrefl, Qlt_le_trans; eauto. }
  rewrite !andb_true_r. unfold Num.nonzero.
  destruct (Qeq_bool pr 0) eqn:E; simpl.
  - apply Qeq_bool_eq in E. split; [intros [? [=]]|].
    intros [_ (pr' & [= <-] & Hne)]. contradiction.
  - split; [|eauto]. intros _. split; [eauto|]. exists pr. split; [reflexivity|].
    intros Heq. apply Qeq_eq_bool in Heq. congruence.
Qed.

Lemma assembled_price_per_g_witness :
  exists p, extract_product_data_from_card demo_card demo_category "Miami Beach, FL"
              None "https://www.trulieve.com" = Some p /\
            (is_Some (price_per_g p) <->
             is_Some (grams p) /\ exists pr, price p = Some pr /\ ~ (pr == 0)%Q).
Proof.
  eexists. split; [vm_compute; reflexivity|].
  apply (assembled_price_per_g demo_card demo_category "Miami Beach, FL" None
           "https://www.trulieve.com").
  vm_compute. reflexivity.
Defined.

(** X15.  A card that shows a price and a brand is assembled without its detail
    page: the browser context makes no difference to the record. *)
Theorem assembled_without_detail_page card category_config store_name context base_url :
  is_Some (extract_price_from_card card) ->
  is_Some (extract_brand_from_card card) ->
  extract_product_data_from_card card category_config store_name context base_url
  = extract_product_data_from_card card category_config store_name None base_url.
Proof.
  intros [v Hv] [b Hb]. unfold extract_product_data_from_card.
  rewrite Hv, Hb.
  destruct (card_name_links card) as [|name_link ?]; [reflexivity|].
  destruct (link_text name_link) as [raw|]; [|reflexivity].
  destruct (_ && _); [|reflexivity].
  destruct (card_inner_text card); [|reflexivity].
  destruct context; reflexivity.
Qed.

Lemma assembled_without_detail_page_witness :
  extract_product_data_from_card demo_card demo_category "Miami Beach, FL"
    (Some no_detail_pages) "https://www.trulieve.com"
  = extract_product_data_from_card demo_card demo_category "Miami Beach, FL"
      None "https://www.trulieve.com".
Proof.
  apply assembled_without_detail_page; eexists; vm_compute; reflexivity.
Defined.

End Assembled.

(* ================================================================== *)
(** * Retries in general *)

Section Retries.



(** Without retries there is one attempt and no pause. *)
Corollary retry_operation_no_retry site url delay w :
  let r := _retry_operation (page_goto site url) 0 delay w in
  fst r = goto_result site (navs w) url /\
  snd r = World (S (navs w)) (trace w ++ [EvGoto url]).
Proof.
  unfold _retry_operation. simpl. unfold page_goto. simpl.
  destruct (goto_result site (navs w) url) as [[]|e]; auto.
Qed.

End Retries.

(* ================================================================== *)
(** * Counters and products of a run of [BaseScraperSync] *)

Section Counters.
Context `{Scraper}.

(** One category leaves the store counter alone, adds at most one to the
    category counter and only appends products; it ends the loop only when
    the key is missing. *)
Lemma scrape_one_category_step store st category res st' :
  scrape_one_category store st category = Some (res, st') ->
  n_stores st' = n_stores st /\
  n_categories st <= n_categories st' <= S (n_categories st) /\
  (has_subcategory category -> res = Ok tt) /\
  exists more, all_products st' = all_products st ++ more /\
    forall p, In p more ->
      exists w ps w', scrape_category category store w = Some (Ok ps, w') /\ In p ps.
Proof.
  unfold scrape_one_category, getitem, has_subcategory.
  destruct (category !! "subcategory") as [v|].
  - destruct (scrape_category category store (l_world st)) as [[[ps|e] w]|] eqn:E;
      [| |discriminate]; simpl; intros [= <- <-]; simpl.
    + repeat split; try lia. exists ps. split; [reflexivity|]. eauto.
    + repeat split; try lia. exists []. split; [symmetry; apply app_nil_r|].
      intros p [].
  - intros [= <- <-]. repeat split; try lia.
    + intros [v Hv]. discriminate.
    + exists []. split; [symmetry; apply app_nil_r|]. intros p [].
Qed.

Lemma scrape_categories_fold store cats : forall st res st',
  scrape_categories store cats st = Some (res, st') ->
  n_stores st' = n_stores st /\
  n_categories st <= n_categories st' <= n_categories st + length cats /\
  (Forall has_subcategory cats -> res = Ok tt) /\
  exists more, all_products st' = all_products st ++ more /\
    forall p, In p more ->
      exists category w ps w', In category cats /\
        scrape_category category store w = Some (Ok ps, w') /\ In p ps.
Proof.
  induction cats as [|c cats IH]; intros st res st'; cbn [scrape_categories length].
  - intros [= <- <-]. repeat split; try lia.
    exists []. split; [symmetry; apply app_nil_r|]. intros p [].
  - destruct (scrape_one_category store st c) as [[[u|e] st1]|] eqn:E; [| |discriminate].
    + intros Hrest.
      apply scrape_one_category_step in E as (Hs & Hc & _ & more1 & Hp1 & Hfrom1).
      apply IH in Hrest as (Hs' & Hc' & Hok & more2 & Hp2 & Hfrom2).
      split; [congruence|]. split; [lia|]. split.
      { intros HF. apply Hok. inversion HF; assumption. }
      exists (more1 ++ more2). split.
      * rewrite Hp2, Hp1, app_assoc. reflexivity.
      * intros p Hin. apply in_app_iff in Hin as [Hin|Hin].
        -- destruct (Hfrom1 p Hin) as (w & ps & w' & E & Hps).
           exists c, w, ps, w'. split; [left; reflexivity | auto].
        -- destruct (Hfrom2 p Hin) as (c' & w & ps & w' & Hc2 & E & Hps).
           exists c', w, ps, w'. split; [right; exact Hc2 | auto].
    + intros [= <- <-].
      apply scrape_one_category_step in E as (Hs & Hc & Hok & more1 & Hp1 & Hfrom1).
      split; [exact Hs|]. split; [lia|]. split.
      { intros HF. apply Hok. inversion HF; assumption. }
      exists more1. split; [exact Hp1|].
      intros p Hin. destruct (Hfrom1 p Hin) as (w & ps & w' & E & Hps).
      exists c, w, ps, w'. split; [left; reflexivity | auto].
Qed.

(** One store: it is counted when the loop over its categories ends
    without an error, which it does when every category has the key. *)
Lemma scrape_one_store_step config st store st' :
  scrape_one_store config st store = Some st' ->
  n_stores st <= n_stores st' <= S (n_stores st) /\
  (Forall has_subcategory (categories config) -> n_stores st' = S (n_stores st)) /\
  n_categories st <= n_categories st' <= n_categories st + length (categories config) /\
  exists more, all_products st' = all_products st ++ more /\
    forall p, In p more ->
      exists category w ps w', In category (categories config) /\
        scrape_category category store w = Some (Ok ps, w') /\ In p ps.
Proof.
  unfold scrape_one_store.
  destruct (scrape_categories store (categories config) st) as [[[u|e] st1]|] eqn:E;
    [| |discriminate]; simpl; intros [= <-]; simpl;
    apply scrape_categories_fold in E as (Hs & Hc & Hok & more & Hp & Hfrom).
  - split; [lia|]. split; [intros _; lia|]. split; [lia|]. exists more. auto.
  - split; [lia|]. split; [intros HF; specialize (Hok HF); discriminate|].
    split; [lia|]. exists more. auto.
Qed.

Lemma scrape_stores_fold config stores : forall st st',
  scrape_stores config stores st = Some st' ->
  n_stores st <= n_stores st' <= n_stores st + length stores /\
  (Forall has_subcategory (categories config) ->
   n_stores st' = n_stores st + length stores) /\
  n_categories st <= n_categories st'
    <= n_categories st + length stores * length (categories config) /\
  exists more, all_products st' = all_products st ++ more /\
    forall p, In p more ->
      exists store category w ps w', In store stores /\ In category (categories config) /\
        scrape_category category store w = Some (Ok ps, w') /\ In p ps.
Proof.
  induction stores as [|s stores IH]; intros st st'; cbn [scrape_stores length].
  - intros [= <-]. repeat split; try lia.
    exists []. split; [symmetry; apply app_nil_r|]. intros p [].
  - destruct (scrape_one_store config st s) as [st1|] eqn:E; [|discriminate].
    intros Hrest.
    apply scrape_one_store_step in E as (Hs & Hall & Hc & more1 & Hp1 & Hfrom1).
    apply IH in Hrest as (Hs' & Hall' & Hc' & more2 & Hp2 & Hfrom2).
    split; [lia|]. split; [intros HF; specialize (Hall HF); specialize (Hall' HF); lia|].
    split; [simpl; lia|].
    exists (more1 ++ more2). split.
    + rewrite Hp2, Hp1, app_assoc. reflexivity.
    + intros p Hin. apply in_app_iff in Hin as [Hin|Hin].
      * destruct (Hfrom1 p Hin) as (c & w & ps & w' & Hc2 & E & Hps).
        exists s, c, w, ps, w'. split; [left; reflexivity | auto].
      * destruct (Hfrom2 p Hin) as (s' & c & w & ps & w' & Hs2 & Hc2 & E & Hps).
        exists s', c, w, ps, w'. split; [right; exact Hs2 | auto].
Qed.





Lemma sync_playwright_bound :
  global_name base_scraper_sync_names "sync_playwright" = Ok tt.
Proof. reflexivity. Qed.

(** A run of [BaseScraperSync] whose session opens, whose home page loads
    and whose discovery returns a list. *)
Lemma Sync_run_discovered config base session w stores w1 :
  sync_launch session = Ok tt -> sync_home session = Ok tt ->
  extract_store_links (visit base w) = Some (Ok stores, w1) ->
  Sync_scrape_all_categories config base session w
  = option_map (fun st' => result_of (sync_close session, st'))
               (scrape_stores config stores (mkLocals w1 [] 0 0)).
Proof.
  intros H0 H1 H2. unfold Sync_scrape_all_categories, Sync_run_workflow.
  rewrite sync_playwright_bound, H0, H1. unfold scrape_discovered. simpl.
  rewrite H2. unfold set_world. simpl.
  destruct (scrape_stores config stores (mkLocals w1 [] 0 0)); reflexivity.
Qed.


Lemma Sync_run_provenance config base session w r w' p :
  Sync_scrape_all_categories config base session w = Some (r, w') ->
  In p (products r) ->
  exists stores w1 store category w2 ps w3,
    extract_store_links (visit base w) = Some (Ok stores, w1) /\
    In store stores /\ In category (categories config) /\
    scrape_category category store w2 = Some (Ok ps, w3) /\ In p ps.
Proof.
  unfold Sync_scrape_all_categories, Sync_run_workflow.
  rewrite sync_playwright_bound.
  destruct (sync_launch session); [|simpl; intros [= <- _] []].
  cbv zeta. destruct (sync_home session); [|simpl; intros [= <- _] []].
  unfold scrape_discovered. simpl.
  destruct (extract_store_links (visit base w)) as [[[stores|e] w1]|] eqn:E;
    [| |discriminate].
  2:{ simpl. intros [= <- _] []. }
  destruct (scrape_stores config stores _) as [st'|] eqn:E2; [|discriminate].
  apply scrape_stores_fold in E2 as (_ & _ & _ & more & Hp & Hfrom).
  destruct (sync_close session); simpl; intros [= <- _]; simpl; [|intros []].
  rewrite Hp. simpl. intros Hin.
  destruct (Hfrom p Hin) as (s & c & w2 & ps & w3 & Hs & Hc & Hsc & Hps).
  exists stores, w1, s, c, w2, ps, w3. auto.
Qed.

(** X18.  Every product in the result of a run of [BaseScraperSync] was
    returned by [scrape_category] for a discovered store and a configured
    category. *)
Theorem Sync_scrape_all_categories_provenance config base session w r w' p :
  Sync_scrape_all_categories config base session w = Some (r, w') ->
  In p (products r) ->
  exists stores w1 store category w2 ps w3,
    extract_store_links (visit base w) = Some (Ok stores, w1) /\
    In store stores /\ In category (categories config) /\
    scrape_category category store w2 = Some (Ok ps, w3) /\ In p ps.
Proof. apply Sync_run_provenance. Qed.





(** Where the block is entered, the handler of the coordinator reports
    what reaches it: a discovery that raises is a failed run, and a
    discovery that returns no store is a successful run of no product. *)
Lemma Sync_discovery_raises config base session w e w1 :
  sync_launch session = Ok tt -> sync_home session = Ok tt ->
  extract_store_links (visit base w) = Some (Raised e, w1) ->
  Sync_scrape_all_categories config base session w
  = Some (mkScrapingResult false [] (Some e) 0 0 0, w1).
Proof.
  intros H0 H1 H2. unfold Sync_scrape_all_categories, Sync_run_workflow.
  rewrite sync_playwright_bound, H0, H1. unfold scrape_discovered. simpl.
  rewrite H2. reflexivity.
Qed.

Lemma Sync_no_store config base session w w1 :
  sync_launch session = Ok tt -> sync_home session = Ok tt ->
  sync_close session = Ok tt ->
  extract_store_links (visit base w) = Some (Ok [], w1) ->
  Sync_scrape_all_categories config base session w
  = Some (mkScrapingResult true [] None 0 0 0, w1).
Proof.
  intros H0 H1 H3 H2. rewrite (Sync_run_discovered _ _ _ _ _ _ H0 H1 H2).
  simpl. rewrite H3. reflexivity.
Qed.

End Counters.





Lemma Sync_scrape_all_categories_provenance_witness :
  exists stores w1 store category w2 ps w3,
    @extract_store_links fixed_scraper (visit "https://www.trulieve.com" world0)
    = Some (Ok stores, w1) /\
    In store stores /\ In category (categories demo_config) /\
    @scrape_category fixed_scraper category store w2 = Some (Ok ps, w3) /\
    In demo_product ps.
Proof.
  eapply (@Sync_scrape_all_categories_provenance fixed_scraper demo_config
            "https://www.trulieve.com" sync_session_ok world0).
  - vm_compute. reflexivity.
  - simpl. left. reflexivity.
Defined.



(* ================================================================== *)
(** * Store discovery *)

Section Discovery.
Variable config : ScrapingConfig.

Lemma add_anchor_fold anchors raw seen x :
  In x (fst (fold_left (add_anchor config) anchors (raw, seen))) ->
  In x raw \/
  exists anchor href,
    In anchor anchors /\ a_href anchor = Ok (Some href) /\
    Str.contains "/dispensaries/" href = true /\
    looks_like_florida (Some href) (Some (fst x)) = true /\
    snd x = urljoin (base_url config) href.
Proof.
  revert raw seen. induction anchors as [|a anchors IH]; intros raw seen;
    cbn [fold_left]; [auto|].
  destruct (add_anchor config (raw, seen) a) as [raw1 seen1] eqn:E.
  intros Hin. apply IH in Hin as [Hin|(anchor & href & Ha & Hrest)];
    [|right; exists anchor, href; simpl; auto].
  unfold add_anchor in E.
  destruct (a_href a) as [[href|]|] eqn:Hh; try (injection E as <- <-; auto).
  destruct (a_text a) as [t|] eqn:Ht; try (injection E as <- <-; auto).
  destruct (Str.nonempty href && Str.contains "/dispensaries/" href
            && negb (bool_decide (href ∈ seen))) eqn:Hc; try (injection E as <- <-; auto).
  destruct (looks_like_florida (Some href) _) eqn:Hfl; injection E as <- <-; [|auto].
  apply in_app_iff in Hin as [Hin|[<-|[]]]; [auto|].
  right. exists a, href. simpl.
  apply andb_true_iff in Hc as [Hc _]. apply andb_true_iff in Hc as [_ Hc]. auto.
Qed.

Lemma add_store_fold raws unique seen :
  (forall s, In s unique -> store_name s ∈ seen) ->
  NoDup (map store_name unique) ->
  let unique' := fst (fold_left add_store raws (unique, seen)) in
  NoDup (map store_name unique') /\
  forall s, In s unique' ->
    In s unique \/
    exists n u, In (n, u) raws /\ s = mkStoreInfo n u (Some n) "FL".
Proof.
  revert unique seen. induction raws as [|[n u] raws IH]; intros unique seen Hseen Hnd;
    cbn [fold_left]; [auto|].
  assert (add_store (unique, seen) (n, u) =
          if bool_decide (n ∈ seen) then (unique, seen)
          else (unique ++ [mkStoreInfo n u (Some n) "FL"], {[n]} ∪ seen)) as ->
      by reflexivity.
  case_bool_decide as Hn.
  - destruct (IH unique seen Hseen Hnd) as [Hnd' Hfrom]. split; [exact Hnd'|].
    intros s Hs. destruct (Hfrom s Hs) as [?|(n' & u' & ? & ?)]; [auto|].
    right. exists n', u'. simpl. auto.
  - destruct (IH (unique ++ [mkStoreInfo n u (Some n) "FL"]) ({[n]} ∪ seen))
      as [Hnd' Hfrom].
    + intros s Hs. apply in_app_iff in Hs as [Hs|[<-|[]]]; [|set_solver].
      specialize (Hseen s Hs). set_solver.
    + rewrite map_app. simpl. apply NoDup_app. split; [exact Hnd|]. split.
      * intros x Hx [->|Hx']%list_elem_of_In; [|destruct Hx'].
        apply list_elem_of_In, in_map_iff in Hx as (s & <- & Hs).
        apply Hn, Hseen, Hs.
      * apply NoDup_singleton.
    + split; [exact Hnd'|]. intros s Hs.
      destruct (Hfrom s Hs) as [Hin|(n' & u' & ? & ?)].
      * apply in_app_iff in Hin as [Hin|[<-|[]]]; [auto|].
        right. exists n, u. simpl. auto.
      * right. exists n', u'. simpl. auto.
Qed.

Lemma anchors_stores_wellformed anchors :
  let stores := stores_of_anchors config anchors in
  NoDup (map store_name stores) /\
  forall s, In s stores ->
    store_state s = "FL" /\ store_location s = Some (store_name s) /\
    store_from_anchor config anchors s.
Proof.
  unfold stores_of_anchors.
  destruct (add_store_fold (fst (fold_left (add_anchor config) anchors ([], ∅))) [] ∅)
    as [Hnd Hfrom]; [intros s [] | constructor |].
  split; [exact Hnd|]. intros s Hs.
  destruct (Hfrom s Hs) as [[]|(n & u & Hraw & ->)]. simpl.
  split; [reflexivity|]. split; [reflexivity|].
  apply add_anchor_fold in Hraw as [[]|(anchor & href & Ha & Hh & Hc & Hfl & Hu)].
  exists anchor, href. simpl in *. auto.
Qed.

(** X21.  The stores listed from the anchors of the directory page have
    distinct names and the state code FL, and each comes from an anchor
    that points into the directory and passes the Florida test. *)
Theorem stores_of_anchors_wellformed anchors :
  let stores := stores_of_anchors config anchors in
  NoDup (map store_name stores) /\
  forall s, In s stores ->
    store_state s = "FL" /\ store_location s = Some (store_name s) /\
    store_from_anchor config anchors s.
Proof. apply anchors_stores_wellformed. Qed.

(** X22.  [extract_store_links] never raises: after a failure or not, it
    returns a list of stores with distinct names and the state code FL. *)
Theorem Trulieve_extract_store_links_wellformed site w :
  exists stores,
    fst (Trulieve_extract_store_links config site w) = Ok stores /\
    NoDup (map store_name stores) /\
    forall s, In s stores -> store_state s = "FL".
Proof.
  unfold Trulieve_extract_store_links.
  destruct (_safe_page_goto site (dispensaries_url config) w) as [[u|e] w'];
    [destruct (directory_anchors site) as [anchors|e]|]; simpl.
  - exists (stores_of_anchors config anchors). split; [reflexivity|].
    destruct (anchors_stores_wellformed anchors) as [Hnd Hs].
    split; [exact Hnd|]. intros s Hin. apply (Hs s Hin).
  - exists []. split; [reflexivity|]. split; [constructor | intros s []].
  - exists []. split; [reflexivity|]. split; [constructor | intros s []].
Qed.

End Discovery.

(* ================================================================== *)
(** * Records of a category *)

Section Records.
Variable config : ScrapingConfig.
Variable site : Site.

Lemma first_wins_incl seen cands x : In x (first_wins seen cands) -> In x cands.
Proof.
  revert seen. induction cands as [|[k p] cands IH]; intros seen; simpl; [auto|].
  case_bool_decide; simpl; [eauto|]. intros [<-|Hin]; eauto.
Qed.

Lemma first_wins_length seen cands : length (first_wins seen cands) <= length cands.
Proof.
  revert seen. induction cands as [|[k p] cands IH]; intros seen; simpl; [lia|].
  case_bool_decide; simpl; [specialize (IH seen) | specialize (IH ({[k]} ∪ seen))]; lia.
Qed.

Lemma omap_length {A B} (f : A -> option B) l : length (omap f l) <= length l.
Proof.
  induction l as [|a l IH]; [simpl; lia|].
  change (omap f (a :: l))
    with (match f a with Some y => y :: omap f l | None => omap f l end).
  destruct (f a); simpl; lia.
Qed.

Lemma category_records category_config shop name_links :
  let out := process_links config site category_config shop name_links in
  length out <= length name_links /\
  forall p, In p out ->
    (exists link, In link name_links /\
       extract_product_data_from_card (l_card link) category_config (store_name shop)
         (Some (site_context site)) (base_url config) = Some p) /\
    state p = "FL" /\ store p = store_name shop /\
    subcategory p = cat_subcategory category_config /\ name p <> "".
Proof.
  cbv zeta. rewrite process_links_first_wins. split.
  - rewrite length_map.
    etransitivity; [apply first_wins_length | apply omap_length].
  - intros p Hin. apply in_map_iff in Hin as ([k p'] & Hp & Hin). simpl in Hp. subst p'.
    apply first_wins_incl in Hin.
    apply list_elem_of_In, list_elem_of_omap in Hin as (link & Hlink & Hc).
    unfold candidate in Hc.
    destruct (extract_product_data_from_card _ _ _ _ _) as [p0|] eqn:E; [|discriminate].
    destruct (l_href link); [|discriminate]. injection Hc as _ ->.
    split; [exists link; split; [apply list_elem_of_In, Hlink | exact E]|].
    destruct (record_identity _ _ _ _ _ _ E) as (? & ? & ? & ? & _). auto.
Qed.

(** X23.  The records of a category page: no more than there are links, each
    assembled from the card of one of the links, for the store and the
    category of the page. *)
Theorem process_links_records category_config shop name_links :
  let out := process_links config site category_config shop name_links in
  length out <= length name_links /\
  forall p, In p out ->
    (exists link, In link name_links /\
       extract_product_data_from_card (l_card link) category_config (store_name shop)
         (Some (site_context site)) (base_url config) = Some p) /\
    state p = "FL" /\ store p = store_name shop /\
    subcategory p = cat_subcategory category_config /\ name p <> "".
Proof. apply category_records. Qed.

(** X24.  [TrulieveScraper.scrape_category], called for a category that has
    the key [subcategory] on a site where the loop of [_load_all_products]
    ends within the fuel, returns a list and never an error, and every
    product of the list has the state code FL, a name, the name of the
    store and the label of the category. *)
Theorem Trulieve_scrape_category_records fuel category shop w :
  has_subcategory category ->
  (forall c, is_Some (_load_all_products (load_more site shop c) 0 fuel)) ->
  exists ps w',
    Trulieve_scrape_category fuel config site category shop w = Some (Ok ps, w') /\
    forall p, In p ps ->
      state p = "FL" /\ name p <> "" /\ store p = store_name shop /\
      category !! "subcategory" = Some (subcategory p).
Proof.
  intros [v Hv] Hload. unfold Trulieve_scrape_category, getitem. rewrite Hv.
  destruct (_set_store_location site shop w) as [b w1].
  destruct (category !! "url") as [url|];
    [|eexists _, _; split; [reflexivity | intros p []]].
  destruct (_safe_page_goto site (urljoin (base_url config) url) w1) as [[u|e] w2];
    [|eexists _, _; split; [reflexivity | intros p []]].
  cbv zeta.
  destruct (Hload (mkCategory url v (default "" (category !! "prefix")))) as [k ->].
  destruct (category_links site shop _) as [links|e];
    [|eexists _, _; split; [reflexivity | intros p []]].
  eexists _, _. split; [reflexivity|]. intros p Hp.
  destruct (category_records (mkCategory url v (default "" (category !! "prefix")))
              shop links) as [_ Hrec].
  destruct (Hrec p Hp) as (_ & Hst & Hstore & Hsub & Hname).
  simpl in Hsub. rewrite Hsub. auto.
Qed.

End Records.

Lemma Trulieve_scrape_category_records_witness :
  exists ps w',
    Trulieve_scrape_category 1 demo_config demo_site
      (category_dict "/category/flower/whole-flower" "Whole Flower"
                     "trulieve_FL_whole_flower") demo_store world0
    = Some (Ok ps, w') /\
    forall p, In p ps ->
      state p = "FL" /\ name p <> "" /\ store p = store_name demo_store /\
      category_dict "/category/flower/whole-flower" "Whole Flower"
                    "trulieve_FL_whole_flower" !! "subcategory"
      = Some (subcategory p).
Proof.
  apply Trulieve_scrape_category_records.
  - unfold has_subcategory. vm_compute. eauto.
  - intros c. simpl. eauto.
Defined.

(* ================================================================== *)
(** * Price elements of a card *)

Section PriceElements.

(** X5.  Only the first four price elements of a card are read: what follows
    them has no influence on the price. *)
Theorem extract_price_from_card_first_four card more :
  4 <= length (card_price_texts card) ->
  extract_price_from_card (with_price_texts card (card_price_texts card ++ more))
  = extract_price_from_card card.
Proof.
  intros H. unfold extract_price_from_card, price_texts, with_price_texts. simpl.
  rewrite firstn_app.
  replace (4 - length (card_price_texts card)) with 0 by lia.
  simpl. rewrite app_nil_r. reflexivity.
Qed.

Lemma extract_price_from_card_first_four_witness :
  let card := mkCard [] (Ok "") [Ok (Some "$40.00"); Ok (Some "$35.00"); Ok None;
                                 Raised "detached"] [] [] in
  extract_price_from_card (with_price_texts card (card_price_texts card ++ [Ok (Some "$5.00")]))
  = extract_price_from_card card.
Proof. apply extract_price_from_card_first_four. simpl. lia. Defined.

End PriceElements.

(* ================================================================== *)
(** * The Florida test *)

Section Florida.
Import Str.

Lemma lower_of_upper_char c : lower_char (upper_char c) = lower_char c.
Proof.
  apply Ascii.eqb_eq.
  apply (forall_ascii (fun c => Ascii.eqb (lower_char (upper_char c)) (lower_char c))).
  vm_compute. reflexivity.
Qed.

Lemma upper_of_lower_char c : upper_char (lower_char c) = upper_char c.
Proof. apply upper_of_lower. Qed.

Lemma lower_upper s : lower (upper s) = lower s.
Proof.
  unfold lower, upper. rewrite of_to_string, map_map. f_equal.
  apply map_ext. intros c. apply lower_of_upper_char.
Qed.

Lemma upper_lower s : upper (lower s) = upper s.
Proof.
  unfold lower, upper. rewrite of_to_string, map_map. f_equal.
  apply map_ext. intros c. apply upper_of_lower_char.
Qed.

Lemma florida_case href text :
  looks_like_florida (option_map upper href) (option_map lower text)
  = looks_like_florida href text.
Proof.
  unfold looks_like_florida.
  assert (lower (default "" (option_map upper href)) = lower (default "" href)) as ->
      by (destruct href; simpl; [apply lower_upper | reflexivity]).
  assert (upper (default "" (option_map lower text)) = upper (default "" text)) as ->
      by (destruct text; simpl; [apply upper_lower | reflexivity]).
  reflexivity.
Qed.

(** X10.  On a 7-bit link and a 7-bit text the Florida test does not depend
    on letter case. *)
Theorem looks_like_florida_case href text :
  isascii_opt href -> isascii_opt text ->
  looks_like_florida (option_map upper href) (option_map lower text)
  = looks_like_florida href text.
Proof. intros _ _. apply florida_case. Qed.

Lemma looks_like_florida_case_witness :
  looks_like_florida (Some "/DISPENSARIES/MIAMI-FL") (Some "miami beach")
  = looks_like_florida (Some "/dispensaries/Miami-fl") (Some "Miami Beach").
Proof.
  apply (looks_like_florida_case (Some "/dispensaries/Miami-fl") (Some "Miami Beach"));
    reflexivity.
Defined.

Lemma ends_with_slash_lower href :
  ends_with "/" href = true -> exists r, rev (of_string (lower href)) = "/"%char :: r.
Proof.
  unfold ends_with, lower. rewrite of_to_string, <- map_rev.
  change (rev (of_string "/")) with ["/"%char].
  destruct (rev (of_string href)) as [|c r]; cbn [starts_with map]; [discriminate|].
  destruct (Ascii.eqb "/" c) eqn:E; [|discriminate].
  apply Ascii.eqb_eq in E. subst c. intros _. exists (map lower_char r). reflexivity.
Qed.

(** X11.  A link with a slash at its end never passes by its ending: unless it
    contains [/florida] or [-fl-], the test is that of the text alone. *)
Theorem looks_like_florida_trailing_slash href text :
  ends_with "/" href = true ->
  contains "/florida" (lower href) = false ->
  contains "-fl-" (lower href) = false ->
  looks_like_florida (Some href) text = looks_like_florida None text.
Proof.
  intros Hs H1 H2. destruct (ends_with_slash_lower href Hs) as [r Hr].
  unfold looks_like_florida.
  change (default "" (Some href)) with href.
  change (default "" (@None string)) with "".
  cbn [existsb]. rewrite H1, H2.
  assert (forall v c r', rev (of_string v) = c :: r' -> c <> "/"%char ->
                         ends_with v (lower href) = false) as Hend.
  { intros v c r' Hv Hc. unfold ends_with. rewrite Hv, Hr. cbn [starts_with].
    destruct (Ascii.eqb c "/") eqn:E; [|reflexivity].
    apply Ascii.eqb_eq in E. contradiction. }
  rewrite (Hend "/fl" "l"%char ["f"; "/"]%char eq_refl ltac:(discriminate)).
  rewrite (Hend "-fl" "l"%char ["f"; "-"]%char eq_refl ltac:(discriminate)).
  reflexivity.
Qed.

(** The link of the repository's own test, which expects it to pass. *)
Lemma looks_like_florida_trailing_slash_witness :
  looks_like_florida (Some "/dispensaries/test-fl/") (Some "Test Store")
  = looks_like_florida None (Some "Test Store").
Proof. apply looks_like_florida_trailing_slash; reflexivity. Defined.

End Florida.

(* ================================================================== *)
(** * Where a size is found *)

Section SizePresence.
Import Str.

Lemma label_wordlike label : In label size_vocabulary -> wordlike label.
Proof.
  simpl. intros H.
  repeat (destruct H as [<-|H]; [split; reflexivity|]). contradiction.
Qed.

Lemma exec_Alt ci r1 r2 st st' :
  In st' (exec ci (r1 </> r2)%re st) <-> In st' (exec ci r1 st) \/ In st' (exec ci r2 st).
Proof. cbn [exec]. apply in_app_iff. Qed.

Lemma exec_size_labels st st' :
  In st' (exec true (Lit "0.5g" </> Lit "1g" </> Lit "2g" </> Lit "3.5g" </>
                     Lit "7g" </> Lit "10g" </> Lit "14g" </> Lit "28g")%re st) <->
  exists label, In label size_vocabulary /\ In st' (exec true (Lit label) st).
Proof.
  rewrite !exec_Alt. unfold size_vocabulary, size_table. cbn [map fst In]. split.
  - intros H. decompose [or] H; eexists; (split; [|eassumption]); auto 10.
  - intros (label & Hl & Hin).
    decompose [or] Hl; subst; auto 10. contradiction.
Qed.

Lemma size_presence text :
  is_Some (extract_size_from_text text) <->
  exists label, In label size_vocabulary /\ occurs_as_word label text.
Proof.
  unfold extract_size_from_text, search, SIZE_RE. split.
  - intros [s Hs]. destruct (nonempty text); [|discriminate].
    destruct (search_at true _ [] (of_string text)) as [f|] eqn:Hf; [|discriminate].
    clear Hs. apply search_at_Some in Hf as (pre & suf & Hsplit & Hst & tl & He).
    match type of He with
    | exec true ?r _ = _ => assert (In (m_stop f) (exec true r (m_start f))) as Hin
          by (rewrite He; left; reflexivity)
    end.
    rewrite Hst, app_nil_r in Hin.
    apply exec_Seq in Hin as (st1 & Hb1 & Hin). apply exec_WordB in Hb1 as [-> Hb1].
    apply exec_Seq in Hin as (st2 & Hg & Hb2). apply exec_WordB in Hb2 as [_ Hb2].
    apply exec_Group in Hg as (st3 & w & Hl & Ha & Haft & Hbef & _).
    apply exec_size_labels in Hl as (label & Hlabel & Hl).
    destruct (label_wordlike label Hlabel) as [Hfirst Hlast].
    apply exec_Lit in Hl as (w' & Hw & Ha' & Hbef' & _).
    assert (w = w') as <- by (rewrite Ha' in Ha; apply app_inv_tail in Ha; congruence).
    apply same_chars_lower in Hw. symmetry in Hw. simpl in Ha, Hbef'.
    exists label. split; [exact Hlabel|].
    exists pre, w, (after st3). split; [congruence|]. split; [exact Hw|].
    unfold at_boundary in Hb1, Hb2. simpl in Hb1.
    rewrite Ha, (word_at_app w) in Hb1
      by (rewrite (word_at_same _ _ Hw); exact Hfirst).
    rewrite Haft, Hbef, Hbef', (word_at_app (rev w)) in Hb2.
    + split; [destruct (word_at (rev pre)) | destruct (word_at (after st3))];
        simpl in *; congruence.
    + rewrite (word_at_same (rev (of_string label))); [exact Hlast|].
      rewrite !map_rev. congruence.
  - intros (label & Hlabel & Hocc).
    rewrite (occurs_nonempty label text); [|intros ->; simpl in Hlabel; intuition discriminate|exact Hocc].
    destruct Hocc as (pre & w & suf & Hsplit & Hw & Hpre & Hsuf).
    destruct (label_wordlike label Hlabel) as [Hfirst Hlast].
    set (inner := Cursor (rev w ++ rev pre) suf ∅).
    assert (In (capture 1 (start_of (rev pre) (w ++ suf)) inner)
               (exec true
                  (WordB +++
                   Group 1 (Lit "0.5g" </> Lit "1g" </> Lit "2g" </> Lit "3.5g" </>
                            Lit "7g" </> Lit "10g" </> Lit "14g" </> Lit "28g") +++
                   WordB)%re (start_of (rev pre) (w ++ suf)))) as Hin.
    { apply exec_Seq. exists (start_of (rev pre) (w ++ suf)). split.
      - apply exec_WordB. split; [reflexivity|]. unfold at_boundary. simpl.
        rewrite Hpre, (word_at_app w); [reflexivity|].
        rewrite (word_at_same _ _ Hw). exact Hfirst.
      - apply exec_Seq. exists (capture 1 (start_of (rev pre) (w ++ suf)) inner). split.
        + cbn [exec]. apply in_map. apply exec_size_labels. exists label.
          split; [exact Hlabel|]. apply exec_Lit. exists w. simpl.
          repeat split; auto. apply same_chars_lower. congruence.
        + apply exec_WordB. split; [reflexivity|]. unfold at_boundary. simpl.
          rewrite Hsuf, (word_at_app (rev w)); [reflexivity|].
          rewrite (word_at_same (rev (of_string label))); [exact Hlast|].
          rewrite !map_rev. congruence. }
    destruct (search_at true _ [] (of_string text)) as [f|] eqn:Hf.
    + apply search_at_Some in Hf as (_ & _ & _ & _ & tl & He).
      destruct (SIZE_RE_group (m_start f) (m_stop f)) as (g & l' & Hg & _).
      { unfold SIZE_RE. rewrite He. left. reflexivity. }
      assert (group 1 f = Some g) as -> by exact Hg. simpl. eauto.
    + exfalso.
      pose proof (proj1 (search_at_None _ _ _ _) Hf pre (w ++ suf) Hsplit) as He.
      rewrite app_nil_r in He. rewrite He in Hin. contradiction.
Qed.

(** X9.  In a 7-bit text a size is extracted exactly when a label of the
    vocabulary stands in it between word boundaries, letter case aside:
    no letter, digit or underscore comes right before the label or right
    after it.  A decimal point is such a boundary: "12.7g" holds the size
    7g. *)
Theorem extract_size_from_text_presence text :
  isascii text = true ->
  is_Some (extract_size_from_text text) <->
  exists label, In label size_vocabulary /\ occurs_as_word label text.
Proof. intros _. apply size_presence. Qed.

Lemma extract_size_from_text_presence_witness :
  extract_size_from_text "12.7g" = Some "7g" /\
  (is_Some (extract_size_from_text "12.7g") <->
   exists label, In label size_vocabulary /\ occurs_as_word label "12.7g").
Proof.
  split; [vm_compute; reflexivity|].
  apply extract_size_from_text_presence. reflexivity.
Defined.

End SizePresence.

(* ================================================================== *)
(** * Loading all products *)

Section LoadAll.

Lemma load_all_from page k : forall round_no fuel,
  (forall i, i < k -> page (round_no + i) = MoreLoaded) ->
  page (round_no + k) <> MoreLoaded ->
  k < fuel ->
  _load_all_products page round_no fuel = Some k.
Proof.
  induction k as [|k IH]; intros round_no fuel Hmore Hstop Hfuel;
    (destruct fuel as [|fuel]; [lia|]); simpl.
  - rewrite Nat.add_0_r in Hstop. destruct (page round_no); congruence.
  - rewrite <- (Nat.add_0_r round_no) at 1. rewrite (Hmore 0 ltac:(lia)).
    rewrite (IH (S round_no) fuel); [reflexivity| |  |lia].
    + intros i Hi. replace (S round_no + i) with (round_no + S i) by lia.
      apply Hmore. lia.
    + replace (S round_no + k) with (round_no + S k) by lia. exact Hstop.
Qed.

(** X25.  The loop ends at the first round in which no click succeeds, after as
    many clicks as rounds came before. *)
Theorem load_all_products_ends page k fuel :
  (forall i, i < k -> page i = MoreLoaded) ->
  page k <> MoreLoaded ->
  k < fuel ->
  _load_all_products page 0 fuel = Some k.
Proof. intros. apply load_all_from; auto. Qed.

Lemma load_all_products_ends_witness :
  _load_all_products (fun i => if (i <? 2)%nat then MoreLoaded else NoButton) 0 5 = Some 2.
Proof.
  apply load_all_products_ends.
  - intros i Hi. destruct i as [|[|i]]; [reflexivity | reflexivity | lia].
  - discriminate.
  - lia.
Defined.

(** X26.  Nothing caps the loop: on a page whose button never goes away it has
    not ended after any number of rounds. *)
Theorem load_all_products_unbounded page :
  (forall i, page i = MoreLoaded) ->
  forall fuel, _load_all_products page 0 fuel = None.
Proof.
  intros Hmore fuel. generalize 0 as round_no.
  induction fuel as [|fuel IH]; intros round_no; simpl; [reflexivity|].
  rewrite Hmore, IH. reflexivity.
Qed.

Lemma load_all_products_unbounded_witness :
  _load_all_products (fun _ => MoreLoaded) 0 1000 = None.
Proof. apply load_all_products_unbounded. intros i. reflexivity. Defined.

End LoadAll.

(* ================================================================== *)
(** * Files by category *)

Section Grouping.

Lemma of_subcategory_snoc k seen p :
  of_subcategory k (seen ++ [p])
  = of_subcategory k seen ++ (if String.eqb (subcategory p) k then [p] else []).
Proof. unfold of_subcategory. rewrite List.filter_app. reflexivity. Qed.

Lemma of_subcategory_nil k products :
  ~ In k (map subcategory products) -> of_subcategory k products = [].
Proof.
  induction products as [|q products IH]; intros Hk; [reflexivity|].
  unfold of_subcategory in *. cbn [List.filter map In] in *.
  destruct (String.eqb_spec (subcategory q) k) as [Heq|_]; [tauto|].
  apply IH. tauto.
Qed.

Lemma of_subcategory_nonempty k products :
  In k (map subcategory products) -> of_subcategory k products <> [].
Proof.
  induction products as [|q products IH]; intros Hk; [destruct Hk|].
  unfold of_subcategory in *. cbn [List.filter map In] in *.
  destruct (String.eqb_spec (subcategory q) k) as [_|Hne]; [discriminate|].
  apply IH. tauto.
Qed.

Lemma groups_of_fresh ks seen p :
  ~ In (subcategory p) ks -> groups_of ks (seen ++ [p]) = groups_of ks seen.
Proof.
  intros Hk. unfold groups_of. apply map_ext_in. intros k Hin.
  rewrite of_subcategory_snoc.
  destruct (String.eqb_spec (subcategory p) k) as [<-|_]; [tauto|].
  rewrite app_nil_r. reflexivity.
Qed.

Lemma group_append_known ks seen p :
  NoDup ks -> In (subcategory p) ks ->
  group_append (subcategory p) p (groups_of ks seen) = groups_of ks (seen ++ [p]).
Proof.
  induction ks as [|k ks IH]; intros Hnd Hin; [destruct Hin|].
  apply NoDup_cons in Hnd as [Hk Hnd]. rewrite list_elem_of_In in Hk.
  cbn [groups_of map group_append]. rewrite of_subcategory_snoc.
  rewrite (String.eqb_sym (subcategory p) k).
  destruct (String.eqb_spec k (subcategory p)) as [->|Hne].
  - f_equal. symmetry. apply groups_of_fresh. exact Hk.
  - rewrite app_nil_r. f_equal. apply IH; [exact Hnd|].
    destruct Hin as [Heq|Hin]; [congruence | exact Hin].
Qed.

Lemma group_append_new ks seen p :
  ~ In (subcategory p) ks ->
  group_append (subcategory p) p (groups_of ks seen)
  = groups_of ks seen ++ [(subcategory p, [p])].
Proof.
  induction ks as [|k ks IH]; intros Hk; [reflexivity|].
  cbn [groups_of map group_append].
  destruct (String.eqb_spec k (subcategory p)) as [->|Hne]; [simpl in Hk; tauto|].
  simpl. f_equal. apply IH. simpl in Hk. tauto.
Qed.

Lemma category_groups_from products : forall seen ks,
  NoDup ks ->
  (forall k, In k ks <-> In k (map subcategory seen)) ->
  exists ks',
    NoDup ks' /\
    (forall k, In k ks' <-> In k (map subcategory (seen ++ products))) /\
    fold_left (fun groups product => group_append (subcategory product) product groups)
              products (groups_of ks seen)
    = groups_of ks' (seen ++ products).
Proof.
  induction products as [|p products IH]; intros seen ks Hnd Hks.
  - exists ks. rewrite app_nil_r. auto.
  - cbn [fold_left].
    replace (seen ++ p :: products) with ((seen ++ [p]) ++ products)
      by (rewrite <- app_assoc; reflexivity).
    destruct (in_dec string_dec (subcategory p) ks) as [Hin|Hout].
    + rewrite group_append_known by assumption.
      apply IH; [exact Hnd|].
      intros k. rewrite Hks, !map_app, !in_app_iff. simpl.
      split; [tauto|]. intros [H|[<-|[]]]; [exact H|]. apply Hks, Hin.
    + rewrite group_append_new by assumption.
      assert (groups_of ks seen ++ [(subcategory p, [p])]
              = groups_of (ks ++ [subcategory p]) (seen ++ [p])) as ->.
      { unfold groups_of at 2. rewrite map_app. fold (groups_of ks (seen ++ [p])).
        rewrite groups_of_fresh by assumption. f_equal. simpl.
        rewrite of_subcategory_snoc, String.eqb_refl, of_subcategory_nil;
          [reflexivity|]. rewrite <- Hks. exact Hout. }
      apply IH.
      * apply NoDup_app. split; [exact Hnd|]. split; [|apply NoDup_singleton].
        intros k Hk1 Hk2. apply list_elem_of_In in Hk1.
        apply list_elem_of_In in Hk2. destruct Hk2 as [<-|[]]. tauto.
      * intros k. rewrite !in_app_iff, Hks, !map_app, !in_app_iff. reflexivity.
Qed.

Lemma category_groups_spec products :
  exists ks,
    NoDup ks /\
    (forall k, In k ks <-> In k (map subcategory products)) /\
    category_groups products = map (fun k => (k, of_subcategory k products)) ks.
Proof.
  destruct (category_groups_from products [] []) as (ks & Hnd & Hks & Heq).
  - apply NoDup_nil_2.
  - reflexivity.
  - exists ks. auto.
Qed.

Lemma omap_cons_eq {A B} (f : A -> option B) a l :
  omap f (a :: l) = match f a with Some y => y :: omap f l | None => omap f l end.
Proof. reflexivity. Qed.

(** X27.  Grouping by subcategory splits the products: the groups have distinct
    keys, exactly the subcategories that occur, and the group of a key is
    the list of the products of that subcategory, in their order. *)
Theorem category_groups_partition products :
  let groups := category_groups products in
  NoDup (map fst groups) /\
  (forall k, In k (map fst groups) <-> In k (map subcategory products)) /\
  (forall k ps, In (k, ps) groups -> ps <> [] /\ ps = of_subcategory k products).
Proof.
  cbv zeta. destruct (category_groups_spec products) as (ks & Hnd & Hks & ->).
  rewrite map_map. cbn [fst]. rewrite map_id. split; [exact Hnd|]. split; [exact Hks|].
  intros k ps Hin. apply in_map_iff in Hin as (k' & [= <- <-] & Hk').
  split; [|reflexivity]. apply of_subcategory_nonempty, Hks, Hk'.
Qed.

(** X28.  [save_by_category] writes one file for each subcategory that occurs,
    under the prefix of the subcategory and with the products of that
    subcategory; the guard of [save_products_to_csv] against an empty list
    never stops a file, only an error while writing does. *)
Theorem save_by_category_files write products :
  exists ks,
    NoDup ks /\
    (forall k, In k ks <-> In k (map subcategory products)) /\
    save_by_category write products
    = omap (fun k => match write (category_prefix k) (of_subcategory k products) with
                     | Ok filepath => Some filepath
                     | Raised _ => None
                     end) ks.
Proof.
  destruct (category_groups_spec products) as (ks & Hnd & Hks & Heq).
  exists ks. split; [exact Hnd|]. split; [exact Hks|].
  unfold save_by_category. rewrite Heq.
  destruct products as [|p products].
  { destruct ks as [|k ks]; [reflexivity|]. exfalso. apply (Hks k). left. reflexivity. }
  assert (forall k, In k ks -> In k (map subcategory (p :: products))) as Hall
    by (intros k; apply Hks).
  clear Heq Hks Hnd. revert Hall. generalize (p :: products) as ps. intros ps.
  induction ks as [|k ks IH]; intros Hall; [reflexivity|].
  cbn [map]. rewrite !omap_cons_eq. cbn [fst snd].
  rewrite IH by (intros k' Hk'; apply Hall; right; exact Hk').
  pose proof (of_subcategory_nonempty k ps (Hall k (or_introl eq_refl))) as Hne.
  unfold save_products_to_csv.
  destruct (of_subcategory k ps) as [|q qs]; [congruence | reflexivity].
Qed.

(** X29.  The prefix of a file never holds a space, whatever the subcategory. *)
Theorem category_prefix_no_space subcategory :
  forallb (fun c => negb (Ascii.eqb c " ")) (Str.of_string (category_prefix subcategory))
  = true.
Proof.
  unfold category_prefix.
  destruct (category_prefixes !! subcategory) as [prefix|] eqn:Hp; cbn [default].
  - apply elem_of_list_to_map_2 in Hp. apply list_elem_of_In in Hp.
    simpl in Hp.
    destruct Hp as [[= _ <-]|[[= _ <-]|[[= _ <-]|[]]]]; reflexivity.
  - rewrite of_string_app, forallb_app. apply andb_true_intro. split; [reflexivity|].
    unfold underscore. rewrite of_to_string. apply forallb_forall.
    intros c Hin. apply in_map_iff in Hin as (c0 & <- & _).
    destruct (Ascii.eqb_spec c0 " "); [reflexivity|].
    destruct (Ascii.eqb_spec c0 " "); [contradiction | reflexivity].
Qed.

End Grouping.

(* ================================================================== *)
(** * Recommendations *)

Section Recommendations.

(** X30.  The list of recommendations is never empty, and it is the all-clear
    message alone exactly when no completeness is under its threshold
    (90, 80, 70, 60 and 85 per cent for price, brand, THC, strain and
    size); otherwise the all-clear message is not in it. *)
Theorem recommendations_all_good price brand thc strain size :
  let r := _generate_data_quality_recommendations price brand thc strain size in
  r <> [] /\
  (r = [all_good] <-> In all_good r) /\
  (In all_good r <->
   (90 <= price /\ 80 <= brand /\ 70 <= thc /\ 60 <= strain /\ 85 <= size)%Q).
Proof.
  cbv zeta. unfold _generate_data_quality_recommendations, Num.Qlt_bool.
  rewrite <- !Qle_bool_iff.
  destruct (Qle_bool 90 price), (Qle_bool 80 brand), (Qle_bool 70 thc),
    (Qle_bool 60 strain), (Qle_bool 85 size); cbn [negb app In];
    unfold price_advice, brand_advice, thc_advice, strain_advice, size_advice, all_good;
    (split; [discriminate|]); split; split;
    try reflexivity; try discriminate; auto;
    intuition (try discriminate; try congruence).
Qed.

End Recommendations.
